(** * enaml.core.dynamic_template: the DynamicTemplate node

    A shallow embedding of [src/enaml/core/dynamic_template.py] and the
    verification of its refresh scheduling, its instantiation step and its
    tag-unpacking protocol.

    The node is a record of its atom members; the collaborators it calls
    (the scheduler, the produced items, the parent, the template) live in a
    [World] that also keeps the trace of every call made to them.  Methods
    are computations in a state-and-exception monad: a Python exception
    leaves the mutations made so far in place. *)

From Stdlib Require Import DecimalString.

From stdpp Require Import base strings gmap list.

#[local] Set Warnings "-clear-no-such-hyp".

(** ** Values and collaborators *)

(** Python values passed through to the template; the node never looks
    inside them. *)
Inductive PyValue :=
| PyNone
| PyInt (z : Z)
| PyStr (s : string).

(** Object identities. *)
Definition ItemId := nat.

Definition TaskId := nat.

Definition ParentId := nat.

Inductive Exn :=
| ValueError (msg : string)
| AttributeError (msg : string)
| TemplateError (msg : string).

(** Modelled from the spec: the [Template] of [enaml.core.template], whose
    code is not part of this module, seen through its two-stage call
    protocol [base( *args )( **data )]. Either stage may raise; the result
    is the ordered list of produced items. *)
Definition Intermediate := gmap string PyValue → Exn + list ItemId.

Definition Template := list PyValue → Exn + Intermediate.

(** A value stored in [tagged]: one item for a fixed tag, a tuple of items
    for the star tag. *)
Inductive TagValue :=
| One (item : ItemId)
| Star (items : list ItemId).

(** The [change] dictionary handed to an observer; only ['type'] is ever
    read. *)
Record Change := mkChange { change_type : string; change_name : string }.

(** ** The node *)

Record Node := mkNode {
  base : option Template;
  args : list PyValue;
  tags : list string;
  startag : string;
  data : gmap string PyValue;
  tagged : gmap string TagValue;
  _update_task : option TaskId;
  _items : list ItemId;
  (* inherited from Declarative *)
  parent : option ParentId;
  is_destroyed : bool
}.

(** Calls made to collaborators, in the order they happen. *)
Inductive Event :=
| EvInvoke
| EvDestroyItem (i : ItemId)
| EvInsertChildren (p : ParentId) (items : list ItemId)
| EvSchedule (t : TaskId)
| EvUnschedule (t : TaskId)
| EvInitItem (i : ItemId)
| EvSuperInit
| EvSuperDestroy.

Record World := mkWorld {
  dead : gset ItemId;       (* items whose is_destroyed flag is set *)
  queue : list TaskId;      (* tasks the scheduler still has to run *)
  next_task : TaskId;
  trace : list Event
}.

Definition set_base v (n : Node) : Node :=
  mkNode v (args n) (tags n) (startag n) (data n) (tagged n)
         (_update_task n) (_items n) (parent n) (is_destroyed n).

Definition set_args v (n : Node) : Node :=
  mkNode (base n) v (tags n) (startag n) (data n) (tagged n)
         (_update_task n) (_items n) (parent n) (is_destroyed n).

Definition set_tags v (n : Node) : Node :=
  mkNode (base n) (args n) v (startag n) (data n) (tagged n)
         (_update_task n) (_items n) (parent n) (is_destroyed n).

Definition set_startag v (n : Node) : Node :=
  mkNode (base n) (args n) (tags n) v (data n) (tagged n)
         (_update_task n) (_items n) (parent n) (is_destroyed n).

Definition set_data v (n : Node) : Node :=
  mkNode (base n) (args n) (tags n) (startag n) v (tagged n)
         (_update_task n) (_items n) (parent n) (is_destroyed n).

Definition set_tagged v (n : Node) : Node :=
  mkNode (base n) (args n) (tags n) (startag n) (data n) v
         (_update_task n) (_items n) (parent n) (is_destroyed n).

Definition set_update_task v (n : Node) : Node :=
  mkNode (base n) (args n) (tags n) (startag n) (data n) (tagged n)
         v (_items n) (parent n) (is_destroyed n).

Definition set_items v (n : Node) : Node :=
  mkNode (base n) (args n) (tags n) (startag n) (data n) (tagged n)
         (_update_task n) v (parent n) (is_destroyed n).

Definition set_parent v (n : Node) : Node :=
  mkNode (base n) (args n) (tags n) (startag n) (data n) (tagged n)
         (_update_task n) (_items n) v (is_destroyed n).

Definition set_is_destroyed v (n : Node) : Node :=
  mkNode (base n) (args n) (tags n) (startag n) (data n) (tagged n)
         (_update_task n) (_items n) (parent n) v.

Definition set_dead v (w : World) : World :=
  mkWorld v (queue w) (next_task w) (trace w).

Definition set_queue v (w : World) : World :=
  mkWorld (dead w) v (next_task w) (trace w).

Definition set_next_task v (w : World) : World :=
  mkWorld (dead w) (queue w) v (trace w).

Definition log (e : Event) (w : World) : World :=
  mkWorld (dead w) (queue w) (next_task w) (trace w ++ [e]).

(** ** The monad of methods *)

Inductive Result (A : Type) :=
| Ok (a : A)
| Raise (e : Exn).

Arguments Ok {A} a.

Arguments Raise {A} e.

Definition Sys : Type := Node * World.

Definition M (A : Type) : Type := Sys → Result A * Sys.

Definition ret {A} (a : A) : M A := λ s, (Ok a, s).

Definition bind {A B} (m : M A) (k : A → M B) : M B :=
  λ s, match m s with
       | (Ok a, s') => k a s'
       | (Raise e, s') => (Raise e, s')
       end.

Definition raise {A} (e : Exn) : M A := λ s, (Raise e, s).

Definition read {A} (f : Node → A) : M A := λ s, (Ok (f s.1), s).

Definition ask {A} (f : World → A) : M A := λ s, (Ok (f s.2), s).

Definition update (f : Node → Node) : M unit := λ s, (Ok tt, (f s.1, s.2)).

Definition effect (f : World → World) : M unit := λ s, (Ok tt, (s.1, f s.2)).

Declare Scope py_scope.

Delimit Scope py_scope with py.

Notation "x <- c ;; k" := (bind c (λ x, k))
  (at level 100, c at next level, right associativity) : py_scope.

Notation "c ;; k" := (bind c (λ _, k))
  (at level 100, k at level 200, right associativity) : py_scope.

Open Scope py_scope.

(** [for x in xs: body(x)] *)
Fixpoint for_each {A} (xs : list A) (body : A → M unit) : M unit :=
  match xs with
  | [] => ret tt
  | x :: rest => body x ;; for_each rest body
  end.

(** Truth value of a tuple and of a string. *)
Definition tuple_true {A} (t : list A) : bool :=
  match t with [] => false | _ => true end.

Definition str_true (s : string) : bool :=
  match s with EmptyString => false | _ => true end.

(** ['%d' % n] *)
Definition fmt_d (n : nat) : string := NilEmpty.string_of_uint (Nat.to_uint n).

(** ** The tag-unpacking engine *)

Definition need_more (n : nat) : string :=
  ("need more than " ++ fmt_d n ++ " values to unpack")%string.

Definition too_many : string := "too many values to unpack".

Definition _rebuild_tags : M unit :=
  tgs <- read tags ;;
  star <- read startag ;;
  items <- read _items ;;
  let tagged0 : gmap string TagValue := ∅ in
  (if tuple_true tgs && (length items <? length tgs)%nat
   then raise (ValueError (need_more (length items)))
   else ret tt) ;;
  (if tuple_true tgs && negb (str_true star) && (length tgs <? length items)%nat
   then raise (ValueError too_many)
   else ret tt) ;;
  let tagged1 :=
    if tuple_true tgs
    then foldl (λ d p, <[p.1 := One p.2]> d) tagged0 (zip tgs items)
    else tagged0 in
  let tagged2 :=
    if str_true star
    then <[star := Star (drop (length tgs) items)]> tagged1
    else tagged1 in
  update (set_tagged tagged2).

(** Modelled from the spec: the scheduler of [enaml.application], whose
    code is not part of this module. [schedule(callable)] queues a task and
    returns its handle; the only callable ever queued is this node's
    [_refresh]. *)
Definition schedule : M TaskId :=
  t <- ask next_task ;;
  effect (λ w, log (EvSchedule t)
                 (set_next_task (S t) (set_queue (queue w ++ [t]) w))) ;;
  ret t.

(** Modelled from the spec: [taskHandle.unschedule()] takes the task out of
    the scheduler. *)
Definition unschedule (t : TaskId) : M unit :=
  effect (λ w, log (EvUnschedule t)
                 (set_queue (filter (λ u, u ≠ t) (queue w)) w)).

(** The call [self.base( *self.args )( **self.data )] of [_refresh]. *)
Definition call_template (tpl : Template) (a : list PyValue)
    (d : gmap string PyValue) : M (list ItemId) :=
  effect (log EvInvoke) ;;
  match tpl a with
  | inl e => raise e
  | inr inter =>
      match inter d with
      | inl e => raise e
      | inr items => ret items
      end
  end.

(** The exception of [self.parent.insert_children] on a node without
    parent: the attribute lookup on [None] fails. *)
Definition no_parent : Exn :=
  AttributeError "'NoneType' object has no attribute 'insert_children'".

(** Modelled from the spec: [insert_children] of the parent, a [Declarative]
    whose code is not part of this module; the call is recorded. *)
Definition insert_children (items : list ItemId) : M unit :=
  p <- read parent ;;
  match p with
  | None => raise no_parent
  | Some pid => effect (log (EvInsertChildren pid items))
  end.

(** [@observe('base', 'args', 'data')] *)
Definition _schedule_refresh (change : Change) : M unit :=
  if String.eqb (change_type change) "update" then
    task <- read _update_task ;;
    match task with
    | None => t <- schedule ;; update (set_update_task (Some t))
    | Some _ => ret tt
    end
  else ret tt.

(** [@observe('tags', 'startag')] *)
Definition _update_tags (change : Change) : M unit :=
  if String.eqb (change_type change) "update" then _rebuild_tags else ret tt.

(** Modelled from the spec: the change-notification substrate (atom), whose
    code is not part of this module. A value-replacing write stores the new
    value and then notifies the member's observer with a change of type
    ['update']. *)
Inductive Dep :=
| NewBase (b : option Template)
| NewArgs (a : list PyValue)
| NewData (d : gmap string PyValue).

Inductive Pres :=
| NewTags (t : list string)
| NewStartag (s : string).

(** Modelled from the spec: a value-replacing write to [base], [args] or
    [data], observed by [_schedule_refresh]. *)
Definition write_dep (d : Dep) : M unit :=
  match d with
  | NewBase b => update (set_base b) ;; _schedule_refresh (mkChange "update" "base")
  | NewArgs a => update (set_args a) ;; _schedule_refresh (mkChange "update" "args")
  | NewData d => update (set_data d) ;; _schedule_refresh (mkChange "update" "data")
  end.

(** Modelled from the spec: a value-replacing write to [tags] or
    [startag], observed by [_update_tags]. *)
Definition write_pres (p : Pres) : M unit :=
  match p with
  | NewTags t => update (set_tags t) ;; _update_tags (mkChange "update" "tags")
  | NewStartag s =>
      update (set_startag s) ;; _update_tags (mkChange "update" "startag")
  end.

(** Modelled from the spec: [del self.member] empties the slot, so that the
    member reads as its default again, and notifies the member's observer
    with a change of type ['delete']. *)
Definition del_data : M unit :=
  update (set_data ∅) ;; _schedule_refresh (mkChange "delete" "data").

(** Modelled from the spec: [del] on the members that have no observer. *)
Definition del_tagged : M unit := update (set_tagged ∅).

Definition del_update_task : M unit := update (set_update_task None).

Definition del_items : M unit := update (set_items []).

(** ** Running the monad *)

Definition outcome {A} (r : Result A * Sys) : Result A := r.1.

Definition final {A} (r : Result A * Sys) : Sys := r.2.

Ltac unfold_py :=
  unfold outcome, final, bind, ret, raise, read, ask, update, effect in *.

(** The dictionary [_rebuild_tags] stores when it succeeds. *)
Definition fill_tags (tgs : list string) (star : string) (items : list ItemId)
  : gmap string TagValue :=
  let tagged1 : gmap string TagValue :=
    if tuple_true tgs
    then foldl (λ d p, <[p.1 := One p.2]> d) ∅ (zip tgs items)
    else ∅ in
  if str_true star
  then <[star := Star (drop (length tgs) items)]> tagged1
  else tagged1.

(** The arity check of [_rebuild_tags], as a decision over the lengths. *)
Definition unpack_error (tgs : list string) (star : string)
    (items : list ItemId) : option Exn :=
  if tuple_true tgs && (length items <? length tgs)%nat
  then Some (ValueError (need_more (length items)))
  else if tuple_true tgs && negb (str_true star)
          && (length tgs <? length items)%nat
  then Some (ValueError too_many)
  else None.

Definition blank_world : World := mkWorld ∅ [] 0 [].

Definition blank_node : Node := mkNode None [] [] "" ∅ ∅ None [] None false.

(** A node whose star tag reuses the name of its only fixed tag. *)
Definition clash_node : Node :=
  set_items [7] (set_startag "a" (set_tags ["a"] blank_node)).

Definition overflow_node : Node :=
  set_items [10; 11; 12] (set_startag "rest" (set_tags ["a"] blank_node)).

(** ** Reading the trace *)

Definition destroyed_in (tr : list Event) : list ItemId :=
  omap (λ e, match e with EvDestroyItem i => Some i | _ => None end) tr.

Definition inserted_in (tr : list Event) : list (ParentId * list ItemId) :=
  omap (λ e, match e with EvInsertChildren p l => Some (p, l) | _ => None end) tr.

Definition scheduled_in (tr : list Event) : list TaskId :=
  omap (λ e, match e with EvSchedule t => Some t | _ => None end) tr.

Definition invoked_in (tr : list Event) : list unit :=
  omap (λ e, match e with EvInvoke => Some tt | _ => None end) tr.

(** The handle and the scheduler agree: the queue holds the task of the
    handle and nothing else. *)
Definition pending_ok (s : Sys) : Prop :=
  queue s.2 = match _update_task s.1 with Some t => [t] | None => [] end.

(** What [_schedule_refresh] does on a change of type ['update']. *)
Definition request (s : Sys) : Sys :=
  match _update_task s.1 with
  | None =>
      let t := next_task s.2 in
      (set_update_task (Some t) s.1,
       log (EvSchedule t) (set_next_task (S t) (set_queue (queue s.2 ++ [t]) s.2)))
  | Some _ => s
  end.

Definition store (d : Dep) (n : Node) : Node :=
  match d with
  | NewBase b => set_base b n
  | NewArgs a => set_args a n
  | NewData d => set_data d n
  end.

Definition touch (s : Sys) (d : Dep) : Sys := request (store d s.1, s.2).

(** The node members that no dependency write and no request touches. *)
Definition same_face (n n' : Node) : Prop :=
  tags n' = tags n ∧ startag n' = startag n ∧ tagged n' = tagged n
  ∧ _items n' = _items n ∧ parent n' = parent n
  ∧ is_destroyed n' = is_destroyed n.

(** The items the loop destroys, in order, given the set of those already
    destroyed. *)
Fixpoint doomed (gone : gset ItemId) (olds : list ItemId) : list ItemId :=
  match olds with
  | [] => []
  | o :: rest =>
      if bool_decide (o ∈ gone) then doomed gone rest
      else o :: doomed (gone ∪ {[o]}) rest
  end.

(** The outcome of the template call of [_refresh], as a function of the
    node. *)
Definition instantiate (n : Node) : Exn + list ItemId :=
  match base n with
  | None => inr []
  | Some tpl =>
      match tpl (args n) with
      | inl e => inl e
      | inr inter => inter (data n)
      end
  end.

(** The state in which the loop over the old items starts. *)
Definition entered (s : Sys) : Sys :=
  (set_update_task None s.1,
   match base s.1 with Some _ => log EvInvoke s.2 | None => s.2 end).

(** The new items reach the parent through one call, made only when there
    are any and only when there is a parent. *)
Definition insertion (n : Node) (new : list ItemId)
  : list (ParentId * list ItemId) :=
  match new, parent n with
  | _ :: _, Some p => [(p, new)]
  | _, _ => []
  end.

(** ** The parent *)

Definition reparent (p : option ParentId) (s : Sys) : Sys :=
  (set_parent p s.1, s.2).

(** ** Sample nodes *)

(** A node without base and without parent that declares one fixed tag. *)
Definition tagged_orphan : Sys := (set_tags ["a"] blank_node, blank_world).

(** Templates that yield one item, two items, or fail. *)
Definition single_template : Template := λ _, inr (λ _, inr [5]).
Definition pair_template : Template := λ _, inr (λ _, inr [5; 6]).
Definition failing_template : Template := λ _, inl (TemplateError "boom").

(** A world in which item 2 has already been destroyed elsewhere. *)
Definition worn_world : World := mkWorld {[2]} [] 0 [].

Definition failing_node : Node :=
  set_items [1; 2] (set_base (Some failing_template) blank_node).

Definition grown_node : Node :=
  set_parent (Some 0)
    (set_items [1; 2; 1] (set_base (Some pair_template) blank_node)).

(** Two fixed tags, but the template yields a single item. *)
Definition short_node : Node :=
  set_parent (Some 0)
    (set_tagged {[ "a" := One 1 ]}
       (set_items [1]
          (set_tags ["a"; "b"] (set_base (Some single_template) blank_node)))).

Definition starred_node : Node :=
  set_items [1] (set_startag "rest" blank_node).

(** No base, one fixed tag, and a tag map left from earlier items. *)
Definition stale_node : Node :=
  set_tagged {[ "x" := One 1 ]}
    (set_items [1] (set_tags ["a"] blank_node)).

(** One item bound under one fixed tag. *)
Definition bound_node : Node :=
  set_tagged {[ "a" := One 10 ]}
    (set_items [10] (set_tags ["a"] blank_node)).

(** Teardown handlers: none at all, or item 1 rewriting [args]. *)
Definition quiet : ItemId → list Dep := λ _, [].
Definition noisy : ItemId → list Dep :=
  λ o, if decide (o = 1) then [NewArgs []] else [].

(** ** Scheduling *)

Definition store_pres (p : Pres) (n : Node) : Node :=
  match p with
  | NewTags t => set_tags t n
  | NewStartag s => set_startag s n
  end.

Definition update_change (name : string) : Change := mkChange "update" name.

(** ** Further readings of the state *)

(** Several calls recorded at once. *)
Definition logs (es : list Event) (w : World) : World :=
  mkWorld (dead w) (queue w) (next_task w) (trace w ++ es).

(** Reading [tagged] back: the item under a fixed tag, the tuple under the
    star tag. *)
Definition fixed_of (d : gmap string TagValue) (name : string)
  : option ItemId :=
  match d !! name with
  | Some (One item) => Some item
  | _ => None
  end.

Definition star_of (d : gmap string TagValue) (star : string) : list ItemId :=
  match d !! star with
  | Some (Star items) => items
  | _ => []
  end.

(** The members after a run of dependency writes. *)
Definition stored (n : Node) (ds : list Dep) : Node :=
  foldl (λ n d, store d n) n ds.

(** Two nodes that agree on what the template call reads. *)
Definition same_deps (n n' : Node) : Prop :=
  base n = base n' ∧ args n = args n' ∧ data n = data n'.

(** A node with a parent and nothing else, and a node that holds task 0
    while the scheduler has it queued. *)
Definition adopted_node : Node := set_parent (Some 0) blank_node.

Definition waiting_node : Node :=
  set_update_task (Some 0) (set_base (Some single_template) adopted_node).

Definition waiting_world : World := mkWorld ∅ [0] 1 [].

Section DynamicTemplate.

(** Modelled from the spec: a produced item is a [Declarative] whose code is
    not part of this module. Destroying it sets its destruction flag; a
    change handler fired during the teardown may write the node's
    dependencies, which [teardown] lists per item. *)
Variable teardown : ItemId → list Dep.

(** Modelled from the spec: [old.is_destroyed]. *)
Definition item_is_destroyed (i : ItemId) : M bool :=
  ask (λ w, bool_decide (i ∈ dead w)).

(** Modelled from the spec: [old.destroy()] sets the flag, then the change
    handlers of the teardown run. *)
Definition item_destroy (i : ItemId) : M unit :=
  effect (λ w, log (EvDestroyItem i) (set_dead (dead w ∪ {[i]}) w)) ;;
  for_each (teardown i) write_dep.

(** Modelled from the spec: [item.initialize()]; the call is recorded. *)
Definition item_initialize (i : ItemId) : M unit := effect (log (EvInitItem i)).

(** Modelled from the spec: the [Declarative] base class, whose code is not
    part of this module, provides the lifecycle hooks the node overrides. *)
Definition super_initialize : M unit := effect (log EvSuperInit).

(** Modelled from the spec: [Declarative.destroy] marks the node as
    destroyed. *)
Definition super_destroy : M unit :=
  update (set_is_destroyed true) ;; effect (log EvSuperDestroy).

(** ** The instantiation engine *)

Definition _refresh : M unit :=
  update (set_update_task None) ;;
  b <- read base ;;
  items <- match b with
           | Some tpl =>
               a <- read args ;;
               d <- read data ;;
               call_template tpl a d
           | None => ret []
           end ;;
  olds <- read _items ;;
  for_each olds (λ old,
    gone <- item_is_destroyed old ;;
    if negb gone then item_destroy old else ret tt) ;;
  (if (0 <? length items)%nat then insert_children items else ret tt) ;;
  update (set_items items) ;;
  _rebuild_tags.

Definition initialize : M unit :=
  _refresh ;;
  items <- read _items ;;
  for_each items item_initialize ;;
  super_initialize.

Definition destroy : M unit :=
  super_destroy ;;
  del_data ;;
  del_tagged ;;
  task <- read _update_task ;;
  match task with
  | Some t => unschedule t ;; del_update_task
  | None => ret tt
  end ;;
  del_items.

(** Modelled from the spec: the scheduler drains its queue one task at a
    time; it takes the task out of the queue and calls it. An exception of
    the task surfaces at top level and the state it left stays. *)
Definition run_next (s : Sys) : Sys :=
  match queue s.2 with
  | [] => s
  | _ :: rest => (_refresh (s.1, set_queue rest s.2)).2
  end.

(** Modelled from the spec: what can happen to the node between two of its
    methods. *)
Inductive Step :=
| Touch (d : Dep)      (* a value-replacing change to base, args or data *)
| Retag (p : Pres)     (* a value-replacing change to tags or startag *)
| Tick.                (* the scheduler runs its next task *)

Definition step (s : Sys) (e : Step) : Sys :=
  match e with
  | Touch d => (write_dep d s).2
  | Retag p => (write_pres p s).2
  | Tick => run_next s
  end.

Definition steps (s : Sys) (es : list Step) : Sys := foldl step s es.

(** What [old.destroy()] does, and what the loop over the old items does. *)
Definition torn (s : Sys) (o : ItemId) : Sys :=
  foldl touch (s.1, log (EvDestroyItem o) (set_dead (dead s.2 ∪ {[o]}) s.2))
        (teardown o).

Definition sweep (s : Sys) (olds : list ItemId) : Sys :=
  foldl (λ s o, if bool_decide (o ∈ dead s.2) then s else torn s o) s olds.

(** The state in which the tag rebuild of a refresh starts, when the
    template call gave [new] and the insertion did not fail. *)
Definition installed (s : Sys) (new : list ItemId) : Sys :=
  let s2 := sweep (entered s) (_items s.1) in
  (set_items new s2.1,
   match new, parent s.1 with
   | _ :: _, Some p => log (EvInsertChildren p new) s2.2
   | _, _ => s2.2
   end).

(** * Verification *)

(** ** The tag rebuild *)

Example fmt_d_12 : fmt_d 12 = "12".
Proof. reflexivity. Qed.

Example fmt_d_0 : fmt_d 0 = "0".
Proof. reflexivity. Qed.

Lemma rebuild_tags_run (n : Node) (w : World) :
  _rebuild_tags (n, w) =
    match unpack_error (tags n) (startag n) (_items n) with
    | Some e => (Raise e, (n, w))
    | None =>
        (Ok tt, (set_tagged (fill_tags (tags n) (startag n) (_items n)) n, w))
    end.
Proof.
  unfold _rebuild_tags, unpack_error, fill_tags. unfold_py. simpl.
  destruct (tuple_true (tags n) && (length (_items n) <? length (tags n))%nat);
    [done|].
  by destruct (tuple_true (tags n) && negb (str_true (startag n))
               && (length (tags n) <? length (_items n))%nat).
Qed.

Lemma tuple_true_length {A} (t : list A) : tuple_true t = true ↔ length t > 0.
Proof. destruct t; simpl; split; (done || lia). Qed.

Lemma str_true_empty (s : string) : str_true s = false ↔ s = "".
Proof. by destruct s. Qed.

Lemma str_true_nonempty (s : string) : str_true s = true ↔ s ≠ "".
Proof. by destruct s. Qed.

Lemma need_more_not_too_many (n : nat) : need_more n ≠ too_many.
Proof. unfold need_more, too_many. simpl. discriminate. Qed.

Lemma unpack_error_need_more tgs star items :
  unpack_error tgs star items = Some (ValueError (need_more (length items)))
  ↔ length tgs > 0 ∧ length tgs > length items.
Proof.
  unfold unpack_error.
  destruct (tuple_true tgs) eqn:Ht; simpl.
  - apply tuple_true_length in Ht.
    destruct (Nat.ltb_spec (length items) (length tgs)).
    + split; [lia | done].
    + split; [|lia].
      destruct (negb (str_true star) && (length tgs <? length items)%nat);
        [|done].
      intros E. exfalso.
      apply (need_more_not_too_many (length items)). congruence.
  - assert (¬ length tgs > 0) by (rewrite <- tuple_true_length; congruence).
    split; [done | lia].
Qed.

Lemma unpack_error_too_many tgs star items :
  unpack_error tgs star items = Some (ValueError too_many)
  ↔ length tgs > 0 ∧ star = "" ∧ length items > length tgs.
Proof.
  unfold unpack_error.
  destruct (tuple_true tgs) eqn:Ht; simpl.
  - apply tuple_true_length in Ht.
    destruct (Nat.ltb_spec (length items) (length tgs)).
    + split; [|lia]. intros E. exfalso.
      apply (need_more_not_too_many (length items)). congruence.
    + destruct (str_true star) eqn:Hs; simpl.
      * apply str_true_nonempty in Hs. split; [done | tauto].
      * apply str_true_empty in Hs.
        destruct (Nat.ltb_spec (length tgs) (length items));
          (split; [intros; (done || lia) | intros; (done || lia)]).
  - assert (¬ length tgs > 0) by (rewrite <- tuple_true_length; congruence).
    split; [done | lia].
Qed.

Lemma unpack_error_none tgs star items :
  unpack_error tgs star items = None
  ↔ ¬ (length tgs > 0 ∧ length tgs > length items)
    ∧ ¬ (length tgs > 0 ∧ star = "" ∧ length items > length tgs).
Proof.
  unfold unpack_error.
  destruct (tuple_true tgs) eqn:Ht; simpl.
  - apply tuple_true_length in Ht.
    destruct (Nat.ltb_spec (length items) (length tgs)); [split; [done|lia]|].
    destruct (str_true star) eqn:Hs; simpl.
    + apply str_true_nonempty in Hs. split; [|done]. intros _. split; [lia|tauto].
    + apply str_true_empty in Hs.
      destruct (Nat.ltb_spec (length tgs) (length items)).
      * split; [done | tauto].
      * split; [|done]. intros _. split; lia.
  - assert (¬ length tgs > 0) by (rewrite <- tuple_true_length; congruence).
    split; [|done]. intros _. split; tauto.
Qed.

(** C1: [_rebuild_tags] raises [ValueError('need more than n values to
    unpack')] exactly when [k > 0] and [k > n], raises [ValueError('too many
    values to unpack')] exactly when [k > 0], [startag] is empty and [n > k],
    and succeeds exactly in every other case, where [k = len(tags)] and
    [n = len(items)]. *)
Theorem rebuild_tags_outcome (s : Sys) :
  let k := length (tags s.1) in
  let n := length (_items s.1) in
  (outcome (_rebuild_tags s) = Raise (ValueError (need_more n))
     ↔ k > 0 ∧ k > n)
  ∧ (outcome (_rebuild_tags s) = Raise (ValueError too_many)
     ↔ k > 0 ∧ startag s.1 = "" ∧ n > k)
  ∧ (outcome (_rebuild_tags s) = Ok tt
     ↔ ¬ (k > 0 ∧ k > n) ∧ ¬ (k > 0 ∧ startag s.1 = "" ∧ n > k)).
Proof.
  destruct s as [n w]. cbv zeta. simpl fst. rewrite rebuild_tags_run.
  rewrite <- (unpack_error_none (tags n) (startag n) (_items n)),
    <- (unpack_error_need_more (tags n) (startag n) (_items n)),
    <- (unpack_error_too_many (tags n) (startag n) (_items n)).
  destruct (unpack_error (tags n) (startag n) (_items n)) as [e|];
    unfold outcome; simpl; repeat split; congruence.
Qed.

(** ** What a successful rebuild binds *)

Lemma fold_tags_absent (l : list (string * ItemId)) (d : gmap string TagValue)
    (name : string) :
  name ∉ l.*1 →
  foldl (λ d p, <[p.1 := One p.2]> d) d l !! name = d !! name.
Proof.
  revert d. induction l as [|p l IH]; intros d Hnot; simpl; [done|].
  rewrite fmap_cons in Hnot. apply not_elem_of_cons in Hnot as [Hne Hl].
  rewrite IH by done. by rewrite lookup_insert_ne.
Qed.

Lemma fold_tags_last (l1 l2 : list (string * ItemId))
    (d : gmap string TagValue) (name : string) (item : ItemId) :
  name ∉ l2.*1 →
  foldl (λ d p, <[p.1 := One p.2]> d) d (l1 ++ (name, item) :: l2) !! name
  = Some (One item).
Proof.
  intros Hnot. rewrite foldl_app. simpl.
  rewrite fold_tags_absent by done. by rewrite lookup_insert_eq.
Qed.

Lemma zip_fst_elem (tgs : list string) (items : list ItemId) (name : string) :
  name ∈ (zip tgs items).*1 → name ∈ tgs.
Proof.
  intros Hin. apply list_elem_of_fmap in Hin as [[a b] [-> Hin]].
  by apply elem_of_zip_l in Hin.
Qed.

Lemma zip_split_at (tgs : list string) (items : list ItemId) i name item :
  tgs !! i = Some name → items !! i = Some item →
  zip tgs items =
    zip (take i tgs) (take i items)
    ++ (name, item) :: zip (drop (S i) tgs) (drop (S i) items).
Proof.
  intros Ht Hi.
  rewrite <- (take_drop_middle tgs i name Ht) at 1.
  rewrite <- (take_drop_middle items i item Hi) at 1.
  rewrite zip_with_app; [done|].
  rewrite !length_take.
  apply lookup_lt_Some in Ht. apply lookup_lt_Some in Hi. lia.
Qed.

Lemma fill_tags_fixed tgs star items i name item :
  tgs !! i = Some name → items !! i = Some item →
  name ∉ drop (S i) tgs →
  str_true star = false ∨ name ≠ star →
  fill_tags tgs star items !! name = Some (One item).
Proof.
  intros Ht Hi Hlast Hstar. unfold fill_tags.
  assert (tuple_true tgs = true) as ->.
  { apply tuple_true_length. apply lookup_lt_Some in Ht. lia. }
  assert (foldl (λ d p, <[p.1 := One p.2]> d) (∅ : gmap string TagValue)
            (zip tgs items) !! name = Some (One item)) as Hfold.
  { rewrite (zip_split_at tgs items i name item Ht Hi).
    apply fold_tags_last. intros Hin. by apply zip_fst_elem in Hin. }
  destruct (str_true star) eqn:Hs; [|done].
  destruct Hstar as [?|Hne]; [done|]. by rewrite lookup_insert_ne.
Qed.

Lemma fill_tags_star tgs star items :
  star ≠ "" →
  fill_tags tgs star items !! star = Some (Star (drop (length tgs) items)).
Proof.
  intros Hs. unfold fill_tags. apply str_true_nonempty in Hs as ->.
  by rewrite lookup_insert_eq.
Qed.

Lemma fill_tags_other tgs star items name :
  name ∉ tgs → str_true star = false ∨ name ≠ star →
  fill_tags tgs star items !! name = None.
Proof.
  intros Hnot Hstar. unfold fill_tags.
  assert ((if tuple_true tgs
           then foldl (λ d p, <[p.1 := One p.2]> d)
                  (∅ : gmap string TagValue) (zip tgs items)
           else ∅) !! name = None) as Hfold.
  { destruct (tuple_true tgs); [|done].
    rewrite fold_tags_absent; [done|].
    intros Hin. by apply zip_fst_elem in Hin. }
  destruct (str_true star) eqn:Hs; [|done].
  destruct Hstar as [?|Hne]; [done|]. by rewrite lookup_insert_ne.
Qed.

Lemma fill_tags_none items : fill_tags [] "" items = ∅.
Proof. done. Qed.

(** Spec examples of section 8. *)
Example unpack_exact :
  fill_tags ["a"; "b"] "" [10; 11] = <["b" := One 11]> (<["a" := One 10]> ∅).
Proof. reflexivity. Qed.

Example unpack_overflow :
  fill_tags ["a"] "rest" [10; 11; 12]
  = <["rest" := Star [11; 12]]> (<["a" := One 10]> ∅).
Proof. reflexivity. Qed.

(** C2 as stated fails: with [tags = ('a',)], [startag = 'a'] and one item
    the rebuild succeeds, yet ['a'] is bound to the empty tuple and not to
    [items[0]]. *)
Lemma rebuild_tags_star_overrides :
  let r := _rebuild_tags (clash_node, blank_world) in
  outcome r = Ok tt
  ∧ tags clash_node !! 0 = Some "a"
  ∧ _items clash_node !! 0 = Some 7
  ∧ tagged (final r).1 !! "a" = Some (Star [])
  ∧ tagged (final r).1 !! "a" ≠ Some (One 7).
Proof.
  cbv zeta. rewrite rebuild_tags_run. simpl.
  split_and!; done.
Qed.

(** C2 (amended): when [_rebuild_tags] succeeds, [tagged] binds [tags[i]] to
    [items[i]] for every index [i < k] whose name does not occur again later
    in [tags] and is not the non-empty [startag]; a non-empty [startag] is
    bound to the tuple [items[k:]]; every other name is unbound, so with no
    tags and an empty [startag] the map is empty; and the new map does not
    depend on the map it replaces. *)
Theorem rebuild_tags_binds (s : Sys) :
  outcome (_rebuild_tags s) = Ok tt →
  let s' := final (_rebuild_tags s) in
  let k := length (tags s.1) in
  (∀ i name, tags s.1 !! i = Some name →
     name ∉ drop (S i) (tags s.1) →
     startag s.1 = "" ∨ name ≠ startag s.1 →
     ∃ item, _items s.1 !! i = Some item
             ∧ tagged s'.1 !! name = Some (One item))
  ∧ (startag s.1 ≠ "" →
     tagged s'.1 !! startag s.1 = Some (Star (drop k (_items s.1))))
  ∧ (∀ name, name ∉ tags s.1 →
     startag s.1 = "" ∨ name ≠ startag s.1 →
     tagged s'.1 !! name = None)
  ∧ (k = 0 → startag s.1 = "" → tagged s'.1 = ∅)
  ∧ (∀ d, tagged (final (_rebuild_tags (set_tagged d s.1, s.2))).1
          = tagged s'.1).
Proof.
  destruct s as [n w]. unfold outcome, final. simpl fst. simpl snd.
  rewrite rebuild_tags_run.
  destruct (unpack_error (tags n) (startag n) (_items n)) as [e|] eqn:Herr;
    [done|].
  intros _. cbv zeta. simpl. repeat split.
  - intros i name Ht Hlast Hstar.
    apply unpack_error_none in Herr as [Hfew _].
    destruct (_items n !! i) as [item|] eqn:Hi.
    + exists item. split; [done|].
      apply (fill_tags_fixed _ _ _ i); try done.
      destruct Hstar as [->|?]; [by left | by right].
    + apply lookup_ge_None in Hi. apply lookup_lt_Some in Ht. lia.
  - apply fill_tags_star.
  - intros name Hnot Hstar. apply fill_tags_other; [done|].
    destruct Hstar as [->|?]; [by left | by right].
  - intros Hk Hs. apply length_zero_iff_nil in Hk. rewrite Hk, Hs.
    apply fill_tags_none.
  - intros d. rewrite rebuild_tags_run. simpl. by rewrite Herr.
Qed.

Lemma rebuild_tags_binds_witness :
  outcome (_rebuild_tags (overflow_node, blank_world)) = Ok tt
  ∧ tagged (final (_rebuild_tags (overflow_node, blank_world))).1 !! "rest"
    = Some (Star [11; 12]).
Proof.
  split; [reflexivity|].
  destruct (rebuild_tags_binds (overflow_node, blank_world) eq_refl)
    as (_ & Hstar & _).
  apply Hstar. discriminate.
Defined.

(** ** Reading the trace *)

Lemma destroyed_in_app a b : destroyed_in (a ++ b) = destroyed_in a ++ destroyed_in b.
Proof. apply omap_app. Qed.

Lemma inserted_in_app a b : inserted_in (a ++ b) = inserted_in a ++ inserted_in b.
Proof. apply omap_app. Qed.

Lemma scheduled_in_app a b : scheduled_in (a ++ b) = scheduled_in a ++ scheduled_in b.
Proof. apply omap_app. Qed.

Lemma invoked_in_app a b : invoked_in (a ++ b) = invoked_in a ++ invoked_in b.
Proof. apply omap_app. Qed.

(** ** Refresh requests *)

Lemma schedule_refresh_run (c : Change) (s : Sys) :
  _schedule_refresh c s =
    (Ok tt, if String.eqb (change_type c) "update" then request s else s).
Proof.
  destruct s as [n w]. unfold _schedule_refresh, request, schedule. unfold_py.
  destruct (String.eqb (change_type c) "update"); [|done].
  simpl. by destruct (_update_task n).
Qed.

Lemma write_dep_run (d : Dep) (s : Sys) : write_dep d s = (Ok tt, touch s d).
Proof.
  destruct s as [n w].
  destruct d; unfold write_dep, touch, bind, update;
    by rewrite schedule_refresh_run.
Qed.

Lemma for_each_write_dep (ds : list Dep) (s : Sys) :
  for_each ds write_dep s = (Ok tt, foldl touch s ds).
Proof.
  revert s. induction ds as [|d ds IH]; intros s; simpl; [done|].
  unfold bind. by rewrite write_dep_run, IH.
Qed.

Lemma same_face_refl n : same_face n n.
Proof. by repeat split. Qed.

Lemma same_face_trans n1 n2 n3 :
  same_face n1 n2 → same_face n2 n3 → same_face n1 n3.
Proof. unfold same_face. intros (?&?&?&?&?&?) (?&?&?&?&?&?). split_and!; congruence. Qed.

Lemma touch_face s d : same_face s.1 (touch s d).1.
Proof.
  destruct s as [n w]. unfold touch, request. simpl.
  destruct d; simpl; destruct (_update_task n); by repeat split.
Qed.

Lemma touch_held s d t :
  _update_task s.1 = Some t →
  (touch s d).2 = s.2 ∧ _update_task (touch s d).1 = Some t.
Proof.
  destruct s as [n w]. unfold touch, request. simpl. intros Ht.
  destruct d; simpl; by rewrite Ht.
Qed.

Lemma touch_free s d :
  _update_task s.1 = None →
  let t := next_task s.2 in
  _update_task (touch s d).1 = Some t
  ∧ (touch s d).2
    = log (EvSchedule t) (set_next_task (S t) (set_queue (queue s.2 ++ [t]) s.2)).
Proof.
  destruct s as [n w]. unfold touch, request. simpl. intros Ht.
  destruct d; simpl; by rewrite Ht.
Qed.


Lemma touches_face s ds : same_face s.1 (foldl touch s ds).1.
Proof.
  revert s. induction ds as [|d ds IH]; intros s; simpl.
  - apply same_face_refl.
  - eapply same_face_trans; [apply (touch_face s d) | apply IH].
Qed.

Lemma touches_held s ds t :
  _update_task s.1 = Some t →
  (foldl touch s ds).2 = s.2 ∧ _update_task (foldl touch s ds).1 = Some t.
Proof.
  revert s. induction ds as [|d ds IH]; intros s Ht; simpl; [done|].
  destruct (touch_held s d t Ht) as [Hw Hh].
  destruct (IH _ Hh) as [Hw' Hh']. split; congruence.
Qed.

Lemma touches_free s ds :
  _update_task s.1 = None → ds ≠ [] →
  let t := next_task s.2 in
  _update_task (foldl touch s ds).1 = Some t
  ∧ (foldl touch s ds).2
    = log (EvSchedule t) (set_next_task (S t) (set_queue (queue s.2 ++ [t]) s.2)).
Proof.
  intros Ht Hne. destruct ds as [|d ds]; [done|]. simpl.
  destruct (touch_free s d Ht) as [Hh Hw].
  destruct (touches_held _ ds _ Hh) as [Hw' Hh']. split; congruence.
Qed.


(** A run of requests leaves the items alone and only ever adds schedule
    calls to the trace. *)
Lemma touches_world s ds :
  dead (foldl touch s ds).2 = dead s.2
  ∧ ∃ T, trace (foldl touch s ds).2 = trace s.2 ++ T
         ∧ destroyed_in T = [] ∧ inserted_in T = [] ∧ invoked_in T = [].
Proof.
  destruct (_update_task s.1) as [t|] eqn:Ht.
  - destruct (touches_held s ds t Ht) as [-> _].
    split; [done|]. exists []. by rewrite app_nil_r.
  - destruct ds as [|d ds].
    + simpl. split; [done|]. exists []. by rewrite app_nil_r.
    + destruct (touches_free s (d :: ds) Ht) as [_ ->]; [done|].
      split; [done|]. by exists [EvSchedule (next_task s.2)].
Qed.

(** ** Destroying the old items *)

Lemma item_destroy_run (o : ItemId) (s : Sys) :
  item_destroy o s = (Ok tt, torn s o).
Proof.
  destruct s as [n w]. unfold item_destroy, torn, bind, effect.
  by rewrite for_each_write_dep.
Qed.

Lemma destroy_loop_run (olds : list ItemId) (s : Sys) :
  for_each olds (λ old,
    gone <- item_is_destroyed old ;;
    if negb gone then item_destroy old else ret tt) s
  = (Ok tt, sweep s olds).
Proof.
  revert s. induction olds as [|o olds IH]; intros s; [done|].
  simpl. unfold bind at 1. unfold bind at 1. unfold item_is_destroyed, ask.
  destruct (bool_decide (o ∈ dead s.2)); simpl.
  - unfold ret. apply IH.
  - rewrite item_destroy_run. apply IH.
Qed.

Lemma doomed_elem gone olds o : o ∈ doomed gone olds ↔ o ∈ olds ∧ o ∉ gone.
Proof.
  revert gone. induction olds as [|x olds IH]; intros gone; simpl.
  - set_solver.
  - case_bool_decide as Hx.
    + rewrite IH. set_solver.
    + rewrite elem_of_cons, IH. destruct (decide (o = x)); set_solver.
Qed.

Lemma doomed_NoDup gone olds : NoDup (doomed gone olds).
Proof.
  revert gone. induction olds as [|x olds IH]; intros gone; simpl.
  - constructor.
  - case_bool_decide; [apply IH|].
    constructor; [|apply IH]. rewrite doomed_elem. set_solver.
Qed.

Lemma torn_face s o : same_face s.1 (torn s o).1.
Proof. unfold torn. apply (touches_face (_, _)). Qed.

Lemma torn_dead s o : dead (torn s o).2 = dead s.2 ∪ {[o]}.
Proof.
  unfold torn.
  by destruct (touches_world
                 (s.1, log (EvDestroyItem o) (set_dead (dead s.2 ∪ {[o]}) s.2))
                 (teardown o)) as [-> _].
Qed.

Lemma torn_trace s o :
  ∃ T, trace (torn s o).2 = trace s.2 ++ T
       ∧ destroyed_in T = [o] ∧ inserted_in T = [] ∧ invoked_in T = [].
Proof.
  unfold torn.
  destruct (touches_world
              (s.1, log (EvDestroyItem o) (set_dead (dead s.2 ∪ {[o]}) s.2))
              (teardown o))
    as [_ (T & -> & HD & HI & HV)].
  exists ([EvDestroyItem o] ++ T).
  rewrite destroyed_in_app, inserted_in_app, invoked_in_app, HD, HI, HV.
  simpl. by rewrite <- app_assoc.
Qed.


Lemma torn_held s o t :
  _update_task s.1 = Some t →
  _update_task (torn s o).1 = Some t
  ∧ queue (torn s o).2 = queue s.2 ∧ next_task (torn s o).2 = next_task s.2.
Proof.
  intros Ht. unfold torn.
  destruct (touches_held
              (s.1, log (EvDestroyItem o) (set_dead (dead s.2 ∪ {[o]}) s.2))
              (teardown o) t Ht)
    as [-> ->]. done.
Qed.

Lemma torn_free s o :
  _update_task s.1 = None → teardown o ≠ [] →
  let t := next_task s.2 in
  _update_task (torn s o).1 = Some t
  ∧ queue (torn s o).2 = queue s.2 ++ [t] ∧ next_task (torn s o).2 = S t.
Proof.
  intros Ht Hne. unfold torn.
  destruct (touches_free
              (s.1, log (EvDestroyItem o) (set_dead (dead s.2 ∪ {[o]}) s.2))
              (teardown o) Ht Hne)
    as [-> ->]. done.
Qed.

Lemma torn_quiet s o :
  teardown o = [] →
  _update_task (torn s o).1 = _update_task s.1
  ∧ queue (torn s o).2 = queue s.2 ∧ next_task (torn s o).2 = next_task s.2.
Proof. intros Hq. unfold torn. by rewrite Hq. Qed.

Lemma sweep_cons s o olds :
  sweep s (o :: olds)
  = sweep (if bool_decide (o ∈ dead s.2) then s else torn s o) olds.
Proof. done. Qed.

Lemma sweep_face s olds : same_face s.1 (sweep s olds).1.
Proof.
  revert s. induction olds as [|o olds IH]; intros s.
  - apply same_face_refl.
  - rewrite sweep_cons. case_bool_decide; [apply IH|].
    eapply same_face_trans; [apply torn_face | apply IH].
Qed.

Lemma sweep_dead s olds : dead (sweep s olds).2 = dead s.2 ∪ list_to_set olds.
Proof.
  revert s. induction olds as [|o olds IH]; intros s.
  - simpl. set_solver.
  - rewrite sweep_cons, IH. case_bool_decide.
    + set_solver.
    + rewrite torn_dead. set_solver.
Qed.

Lemma sweep_trace s olds :
  ∃ T, trace (sweep s olds).2 = trace s.2 ++ T
       ∧ destroyed_in T = doomed (dead s.2) olds
       ∧ inserted_in T = [] ∧ invoked_in T = [].
Proof.
  revert s. induction olds as [|o olds IH]; intros s.
  - exists []. simpl. by rewrite app_nil_r.
  - rewrite sweep_cons. simpl. case_bool_decide as Ho.
    + apply IH.
    + destruct (IH (torn s o)) as (T2 & HT2 & HD2 & HI2 & HV2).
      destruct (torn_trace s o) as (T1 & HT1 & HD1 & HI1 & HV1).
      exists (T1 ++ T2).
      rewrite HT2, HT1, <- app_assoc.
      rewrite destroyed_in_app, inserted_in_app, invoked_in_app.
      rewrite HD1, HD2, HI1, HI2, HV1, HV2, torn_dead. done.
Qed.


Lemma sweep_held s olds t :
  _update_task s.1 = Some t →
  _update_task (sweep s olds).1 = Some t
  ∧ queue (sweep s olds).2 = queue s.2
  ∧ next_task (sweep s olds).2 = next_task s.2.
Proof.
  revert s. induction olds as [|o olds IH]; intros s Ht; [done|].
  rewrite sweep_cons. case_bool_decide; [by apply IH|].
  destruct (torn_held s o t Ht) as (Hh & Hq & Hn).
  destruct (IH _ Hh) as (? & ? & ?). split_and!; congruence.
Qed.



(** ** One refresh, step by step *)

Lemma refresh_run (s : Sys) :
  _refresh s =
    match instantiate s.1 with
    | inl e => (Raise e, (set_update_task None s.1, log EvInvoke s.2))
    | inr new =>
        let s2 := sweep (entered s) (_items s.1) in
        if (0 <? length new)%nat then
          match parent s2.1 with
          | None => (Raise no_parent, s2)
          | Some p =>
              _rebuild_tags
                (set_items new s2.1, log (EvInsertChildren p new) s2.2)
          end
        else _rebuild_tags (set_items new s2.1, s2.2)
    end.
Proof.
  destruct s as [n w]. unfold _refresh, instantiate, entered.
  unfold bind at 1. unfold update at 1. simpl fst. simpl snd.
  unfold bind at 1. unfold read at 1. simpl fst.
  change (base (set_update_task None n)) with (base n).
  unfold bind at 1.
  destruct (base n) as [tpl|].
  - unfold bind at 1. unfold read at 1. simpl fst.
    unfold bind at 1. unfold read at 1. simpl fst.
    unfold call_template. unfold bind at 1. unfold effect at 1.
    simpl fst. simpl snd.
    change (args (set_update_task None n)) with (args n).
    change (data (set_update_task None n)) with (data n).
    destruct (tpl (args n)) as [e|inter]; [done|].
    destruct (inter (data n)) as [e|new]; [done|].
    unfold ret at 1. unfold bind at 1. unfold read at 1. simpl fst.
    unfold bind at 1. rewrite destroy_loop_run.
    change (_items (set_update_task None n)) with (_items n).
    cbv zeta. unfold bind at 1.
    destruct (0 <? length new)%nat.
    + unfold insert_children. unfold bind at 1. unfold read at 1.
      destruct (parent _) as [p|]; [|done].
      unfold effect. unfold bind at 1. unfold update at 1. done.
    + unfold ret at 1. unfold bind at 1. unfold update at 1. done.
  - unfold ret at 1. unfold bind at 1. unfold read at 1. simpl fst.
    unfold bind at 1. rewrite destroy_loop_run.
    change (_items (set_update_task None n)) with (_items n).
    simpl. unfold bind at 1. unfold ret at 1. unfold bind at 1.
    unfold update at 1. done.
Qed.

Lemma rebuild_tags_final (s : Sys) :
  ∃ d, final (_rebuild_tags s) = (set_tagged d s.1, s.2).
Proof.
  destruct s as [n w]. rewrite rebuild_tags_run.
  destruct (unpack_error _ _ _); simpl; [|by eexists].
  exists (tagged n). by destruct n.
Qed.

Lemma rebuild_tags_raise (s : Sys) (e : Exn) :
  outcome (_rebuild_tags s) = Raise e → final (_rebuild_tags s) = s.
Proof.
  destruct s as [n w]. rewrite rebuild_tags_run.
  by destruct (unpack_error _ _ _).
Qed.

Lemma entered_face (s : Sys) : same_face s.1 (entered s).1.
Proof. by repeat split. Qed.

Lemma entered_trace (s : Sys) :
  ∃ T, trace (entered s).2 = trace s.2 ++ T
       ∧ destroyed_in T = [] ∧ inserted_in T = []
       ∧ invoked_in T = match base s.1 with Some _ => [()] | None => [] end.
Proof.
  unfold entered. simpl. destruct (base s.1).
  - by exists [EvInvoke].
  - exists []. by rewrite app_nil_r.
Qed.

Lemma entered_dead (s : Sys) : dead (entered s).2 = dead s.2.
Proof. unfold entered. simpl. by destruct (base s.1). Qed.

(** C3: if the two-stage template call raises, [_refresh] raises the same
    exception to its caller, [_items] and [tagged] are what they were, no
    item's destruction flag changes, and the only call made to a
    collaborator is the template call itself: nothing is destroyed and
    nothing is inserted. *)
Theorem refresh_template_error (s : Sys) (e : Exn) :
  instantiate s.1 = inl e →
  let r := _refresh s in
  outcome r = Raise e
  ∧ _items (final r).1 = _items s.1
  ∧ tagged (final r).1 = tagged s.1
  ∧ dead (final r).2 = dead s.2
  ∧ trace (final r).2 = trace s.2 ++ [EvInvoke]
  ∧ destroyed_in (trace (final r).2) = destroyed_in (trace s.2).
Proof.
  intros He. cbv zeta. rewrite refresh_run, He. simpl.
  split_and!; try done.
  rewrite destroyed_in_app. simpl. by rewrite app_nil_r.
Qed.

Lemma refresh_phases (s : Sys) (new : list ItemId) :
  instantiate s.1 = inr new →
  let s' := final (_refresh s) in
  ∃ T1 T2,
    trace s'.2 = trace s.2 ++ T1 ++ T2
    ∧ destroyed_in T1 = doomed (dead s.2) (_items s.1)
    ∧ inserted_in T1 = []
    ∧ invoked_in T1 = match base s.1 with Some _ => [()] | None => [] end
    ∧ destroyed_in T2 = []
    ∧ inserted_in T2 = insertion s.1 new
    ∧ invoked_in T2 = []
    ∧ dead s'.2 = dead s.2 ∪ list_to_set (_items s.1).
Proof.
  intros Hnew. cbv zeta. rewrite refresh_run, Hnew. cbv zeta.
  destruct (sweep_trace (entered s) (_items s.1)) as (Ts & HTs & HDs & HIs & HVs).
  destruct (entered_trace s) as (Te & HTe & HDe & HIe & HVe).
  pose proof (sweep_dead (entered s) (_items s.1)) as Hdead.
  rewrite entered_dead in Hdead, HDs.
  destruct (sweep_face (entered s) (_items s.1)) as (_ & _ & _ & _ & Hpar & _).
  change (parent (entered s).1) with (parent s.1) in Hpar.
  assert (destroyed_in (Te ++ Ts) = doomed (dead s.2) (_items s.1)
          ∧ inserted_in (Te ++ Ts) = []
          ∧ invoked_in (Te ++ Ts)
            = match base s.1 with Some _ => [()] | None => [] end)
    as (HD1 & HI1 & HV1).
  { rewrite destroyed_in_app, inserted_in_app, invoked_in_app.
    rewrite HDe, HIe, HVe, HDs, HIs, HVs. by rewrite !app_nil_r. }
  unfold insertion. rewrite <- Hpar.
  destruct new as [|x new]; simpl.
  - destruct (rebuild_tags_final (set_items [] (sweep (entered s) (_items s.1)).1,
                                  (sweep (entered s) (_items s.1)).2)) as [d ->].
    exists (Te ++ Ts), []. simpl.
    rewrite app_nil_r, HTs, HTe, <- app_assoc.
    by destruct (parent _).
  - destruct (parent (sweep (entered s) (_items s.1)).1) as [p|].
    + destruct (rebuild_tags_final
                  (set_items (x :: new) (sweep (entered s) (_items s.1)).1,
                   log (EvInsertChildren p (x :: new))
                     (sweep (entered s) (_items s.1)).2)) as [d ->].
      exists (Te ++ Ts), [EvInsertChildren p (x :: new)]. simpl.
      by rewrite HTs, HTe, <- !app_assoc.
    + exists (Te ++ Ts), []. simpl.
      by rewrite app_nil_r, HTs, HTe, <- app_assoc.
Qed.

(** C5: whenever the template call succeeds (or [base] is [None]), every
    old item that is not yet destroyed is destroyed exactly once, every old
    item that is already destroyed is skipped, nothing else is destroyed,
    and all of this happens before the insertion call, whether or not there
    are new items: the calls of the refresh split into a first part that
    holds every destruction and no insertion, and a second part that holds
    the insertion and no destruction. *)
Theorem refresh_destroys_old (s : Sys) (new : list ItemId) :
  instantiate s.1 = inr new →
  let s' := final (_refresh s) in
  ∃ T1 T2,
    trace s'.2 = trace s.2 ++ T1 ++ T2
    ∧ NoDup (destroyed_in T1)
    ∧ (∀ o, o ∈ destroyed_in T1 ↔ o ∈ _items s.1 ∧ o ∉ dead s.2)
    ∧ inserted_in T1 = []
    ∧ destroyed_in T2 = []
    ∧ inserted_in T2 = insertion s.1 new
    ∧ (∀ o, o ∈ _items s.1 → o ∈ dead s'.2).
Proof.
  intros Hnew. cbv zeta.
  destruct (refresh_phases s new Hnew)
    as (T1 & T2 & HT & HD1 & HI1 & _ & HD2 & HI2 & _ & Hdead).
  exists T1, T2. rewrite HD1. split_and!; try done.
  - apply doomed_NoDup.
  - intros o. apply doomed_elem.
  - intros o Ho. rewrite Hdead. apply elem_of_union_r.
    by apply elem_of_list_to_set.
Qed.

Lemma refresh_installed (s : Sys) (new : list ItemId) :
  instantiate s.1 = inr new →
  new = [] ∨ parent s.1 ≠ None →
  _refresh s = _rebuild_tags (installed s new).
Proof.
  intros Hnew Hpar. rewrite refresh_run, Hnew. cbv zeta. unfold installed.
  destruct (sweep_face (entered s) (_items s.1)) as (_ & _ & _ & _ & -> & _).
  change (parent (entered s).1) with (parent s.1).
  destruct new as [|x new]; [done|]. simpl.
  destruct Hpar as [?|Hpar]; [done|]. by destruct (parent s.1).
Qed.

Lemma installed_face (s : Sys) (new : list ItemId) :
  tags (installed s new).1 = tags s.1
  ∧ startag (installed s new).1 = startag s.1
  ∧ tagged (installed s new).1 = tagged s.1
  ∧ _items (installed s new).1 = new.
Proof.
  unfold installed. simpl.
  destruct (sweep_face (entered s) (_items s.1)) as (-> & -> & -> & _).
  done.
Qed.

Lemma installed_dead (s : Sys) (new : list ItemId) :
  dead (installed s new).2 = dead s.2 ∪ list_to_set (_items s.1).
Proof.
  rewrite <- (entered_dead s), <- sweep_dead. unfold installed. simpl.
  destruct new; [done|]. by destruct (parent s.1).
Qed.

Lemma rebuild_tags_same_inputs (s1 s2 : Sys) :
  tags s1.1 = tags s2.1 → startag s1.1 = startag s2.1 →
  _items s1.1 = _items s2.1 →
  outcome (_rebuild_tags s1) = outcome (_rebuild_tags s2)
  ∧ (outcome (_rebuild_tags s1) = Ok tt →
     tagged (final (_rebuild_tags s1)).1 = tagged (final (_rebuild_tags s2)).1).
Proof.
  destruct s1 as [n1 w1], s2 as [n2 w2]. simpl. intros Ht Hs Hi.
  rewrite !rebuild_tags_run, Ht, Hs, Hi.
  by destruct (unpack_error _ _ _).
Qed.

(** C6 (amended): with [base] equal to [None] a refresh leaves [_items]
    empty, calls neither the template nor the parent, and ends with the tag
    rebuild run on the empty item list. When the node declares no fixed tag
    the refresh returns and [tagged] is derived from the empty list: the
    empty map, or the star tag bound to the empty tuple. When it declares a
    fixed tag the rebuild raises ['need more than 0 values to unpack'] and
    [tagged] keeps the old map. *)
Theorem refresh_no_base (s : Sys) :
  base s.1 = None →
  let r := _refresh s in
  _items (final r).1 = []
  ∧ inserted_in (trace (final r).2) = inserted_in (trace s.2)
  ∧ invoked_in (trace (final r).2) = invoked_in (trace s.2)
  ∧ (∃ s1, r = _rebuild_tags s1 ∧ _items s1.1 = []
           ∧ tags s1.1 = tags s.1 ∧ startag s1.1 = startag s.1
           ∧ tagged s1.1 = tagged s.1)
  ∧ (tags s.1 = [] →
     outcome r = Ok tt
     ∧ tagged (final r).1
       = if str_true (startag s.1) then {[ startag s.1 := Star [] ]} else ∅)
  ∧ (tags s.1 ≠ [] →
     outcome r = Raise (ValueError (need_more 0))
     ∧ tagged (final r).1 = tagged s.1).
Proof.
  intros Hbase. cbv zeta.
  assert (instantiate s.1 = inr []) as Hnew.
  { unfold instantiate. by rewrite Hbase. }
  destruct (refresh_phases s [] Hnew)
    as (T1 & T2 & HT & _ & HI1 & HV1 & _ & HI2 & HV2 & _).
  rewrite Hbase in HV1.
  rewrite (refresh_installed s []) by (done || by left).
  rewrite (refresh_installed s []) in HT by (done || by left).
  destruct (installed_face s []) as (Htags & Hstar & Htagged & Hitems).
  destruct (rebuild_tags_final (installed s [])) as [d Hfinal].
  split_and!.
  - rewrite Hfinal. simpl. apply Hitems.
  - rewrite HT, !inserted_in_app, HI1, HI2. simpl. by rewrite app_nil_r.
  - rewrite HT, !invoked_in_app, HV1, HV2. simpl. by rewrite app_nil_r.
  - by exists (installed s []).
  - intros Hnone. destruct (installed s []) as [n1 w1]. simpl in *.
    rewrite rebuild_tags_run, Htags, Hstar, Hitems, Hnone. simpl.
    unfold fill_tags. simpl. by destruct (str_true (startag s.1)).
  - intros Hsome. destruct (installed s []) as [n1 w1]. simpl in *.
    rewrite rebuild_tags_run, Htags, Hstar, Hitems.
    unfold unpack_error. destruct (tags s.1); [done|]. simpl. done.
Qed.

Lemma refresh_raise_keeps_tagged (s : Sys) (e : Exn) :
  outcome (_refresh s) = Raise e →
  tagged (final (_refresh s)).1 = tagged s.1.
Proof.
  rewrite refresh_run. destruct (instantiate s.1) as [e'|new]; [done|].
  cbv zeta.
  destruct (sweep_face (entered s) (_items s.1)) as (_ & _ & Htagged & _).
  change (tagged (entered s).1) with (tagged s.1) in Htagged.
  destruct (0 <? length new)%nat.
  - destruct (parent _) as [p|]; [|done].
    intros Hr. by rewrite (rebuild_tags_raise _ e Hr).
  - intros Hr. by rewrite (rebuild_tags_raise _ e Hr).
Qed.

(** C8: when the template call succeeds, the insertion goes through, and
    the tag rebuild on the new item list raises, [_refresh] raises that
    error with [_items] already holding the new list, [tagged] still
    holding the old map and every old item destroyed. [tagged] is written
    only by a rebuild that succeeds: a rebuild that raises changes nothing
    at all, and a refresh that raises, for whatever reason, leaves [tagged]
    as it was. *)
Theorem refresh_unpack_error (s : Sys) (new : list ItemId) (e : Exn) :
  instantiate s.1 = inr new →
  new = [] ∨ parent s.1 ≠ None →
  outcome (_rebuild_tags (set_items new s.1, s.2)) = Raise e →
  let r := _refresh s in
  outcome r = Raise e
  ∧ _items (final r).1 = new
  ∧ tagged (final r).1 = tagged s.1
  ∧ (∀ o, o ∈ _items s.1 → o ∈ dead (final r).2)
  ∧ (∀ s0 e0, outcome (_rebuild_tags s0) = Raise e0 →
              final (_rebuild_tags s0) = s0)
  ∧ (∀ s0 e0, outcome (_refresh s0) = Raise e0 →
              tagged (final (_refresh s0)).1 = tagged s0.1).
Proof.
  intros Hnew Hpar Hraise. cbv zeta.
  rewrite (refresh_installed s new Hnew Hpar).
  destruct (installed_face s new) as (Htags & Hstar & Htagged & Hitems).
  destruct (rebuild_tags_same_inputs (installed s new) (set_items new s.1, s.2))
    as [Hout _]; try done.
  rewrite Hraise in Hout.
  rewrite (rebuild_tags_raise _ e Hout).
  split_and!; try done.
  - intros o Ho. rewrite installed_dead. apply elem_of_union_r.
    by apply elem_of_list_to_set.
  - intros s0 e0. apply rebuild_tags_raise.
  - intros s0 e0. apply refresh_raise_keeps_tagged.
Qed.

(** ** The parent *)

Lemma touch_reparent p s d : touch (reparent p s) d = reparent p (touch s d).
Proof.
  destruct s as [n w]. unfold touch, request, reparent. simpl.
  destruct d; simpl; by destruct (_update_task n).
Qed.

Lemma touches_reparent p s ds :
  foldl touch (reparent p s) ds = reparent p (foldl touch s ds).
Proof.
  revert s. induction ds as [|d ds IH]; intros s; simpl; [done|].
  by rewrite touch_reparent, IH.
Qed.

Lemma torn_reparent p s o : torn (reparent p s) o = reparent p (torn s o).
Proof. unfold torn. simpl. apply (touches_reparent p (_, _)). Qed.

Lemma sweep_reparent p s olds :
  sweep (reparent p s) olds = reparent p (sweep s olds).
Proof.
  revert s. induction olds as [|o olds IH]; intros s; [done|].
  rewrite !sweep_cons. simpl. case_bool_decide; [apply IH|].
  by rewrite torn_reparent, IH.
Qed.

Lemma rebuild_tags_reparent p s :
  _rebuild_tags (reparent p s)
  = (outcome (_rebuild_tags s), reparent p (final (_rebuild_tags s))).
Proof.
  destruct s as [n w]. unfold reparent. simpl. rewrite !rebuild_tags_run.
  simpl. by destruct (unpack_error _ _ _).
Qed.

Lemma refresh_reparent p s :
  instantiate s.1 = inr [] →
  _refresh (reparent p s)
  = (outcome (_refresh s), reparent p (final (_refresh s))).
Proof.
  intros Hnew. rewrite !refresh_run.
  change (instantiate (reparent p s).1) with (instantiate s.1).
  rewrite Hnew. simpl.
  change (entered (reparent p s)) with (reparent p (entered s)).
  rewrite sweep_reparent.
  apply (rebuild_tags_reparent p (set_items [] _, _)).
Qed.

Lemma rebuild_tags_not_no_parent s : outcome (_rebuild_tags s) ≠ Raise no_parent.
Proof.
  destruct s as [n w]. rewrite rebuild_tags_run. unfold unpack_error.
  destruct (tuple_true (tags n) && _); [done|].
  by destruct (tuple_true (tags n) && _ && _).
Qed.

(** C10 (amended): when the new item list is empty the parent is never
    accessed: no insertion call is made, the missing-parent error cannot
    occur, and the refresh behaves the same whatever the parent is, absent
    or not; it completes exactly when the node declares no fixed tag.
    When the template call succeeds, the missing-parent error occurs
    exactly when there is no parent and the new item list is non-empty,
    and it occurs after every old item has been destroyed, with [_items]
    and [tagged] still the old ones. *)
Theorem refresh_parent_access (s : Sys) (new : list ItemId) :
  instantiate s.1 = inr new →
  let r := _refresh s in
  (new = [] →
     (∀ p, _refresh (reparent p s) = (outcome r, reparent p (final r)))
     ∧ inserted_in (trace (final r).2) = inserted_in (trace s.2)
     ∧ (outcome r = Ok tt ↔ tags s.1 = []))
  ∧ (outcome r = Raise no_parent ↔ parent s.1 = None ∧ new ≠ [])
  ∧ (outcome r = Raise no_parent →
     (∀ o, o ∈ _items s.1 → o ∈ dead (final r).2)
     ∧ _items (final r).1 = _items s.1
     ∧ tagged (final r).1 = tagged s.1).
Proof.
  intros Hnew. cbv zeta.
  assert (outcome (_refresh s) = Raise no_parent
          ↔ parent s.1 = None ∧ new ≠ []) as Hiff.
  { destruct (decide (new = [] ∨ parent s.1 ≠ None)) as [Hpar|Hpar].
    - rewrite (refresh_installed s new Hnew Hpar). split.
      + intros Hr. by apply rebuild_tags_not_no_parent in Hr.
      + intros [Hp Hn]. by destruct Hpar.
    - rewrite refresh_run, Hnew. cbv zeta.
      destruct (sweep_face (entered s) (_items s.1))
        as (_ & _ & _ & _ & -> & _).
      change (parent (entered s).1) with (parent s.1).
      destruct new as [|x new]; [by destruct Hpar; left|].
      destruct (parent s.1) as [p|]; [by destruct Hpar; right|].
      simpl. done. }
  split_and!.
  - intros ->. split_and!.
    + intros p. by apply refresh_reparent.
    + destruct (refresh_phases s [] Hnew)
        as (T1 & T2 & -> & _ & HI1 & _ & _ & HI2 & _).
      rewrite !inserted_in_app, HI1, HI2. simpl. by rewrite app_nil_r.
    + rewrite (refresh_installed s []) by (done || by left).
      destruct (installed_face s []) as (Htags & Hstar & _ & Hitems).
      destruct (installed s []) as [n1 w1]. simpl in *.
      rewrite rebuild_tags_run, Htags, Hstar, Hitems.
      unfold unpack_error. destruct (tags s.1); simpl; split; done.
  - done.
  - intros Hr. apply Hiff in Hr as [Hp Hn].
    rewrite refresh_run, Hnew. cbv zeta.
    destruct (sweep_face (entered s) (_items s.1))
      as (_ & _ & Htagged & Hitems & Hpar & _).
    rewrite Hpar. change (parent (entered s).1) with (parent s.1).
    rewrite Hp. destruct new as [|x new]; [done|]. simpl.
    split_and!; try done.
    intros o Ho. rewrite sweep_dead, entered_dead. apply elem_of_union_r.
    by apply elem_of_list_to_set.
Qed.

(** ** Scheduling *)

Lemma update_tags_run (c : Change) (s : Sys) :
  _update_tags c s =
    if String.eqb (change_type c) "update" then _rebuild_tags s else (Ok tt, s).
Proof. unfold _update_tags. by destruct (String.eqb _ _). Qed.

Lemma write_pres_run (p : Pres) (s : Sys) :
  write_pres p s = _rebuild_tags (store_pres p s.1, s.2).
Proof. destruct s as [n w]. by destruct p. Qed.









Lemma steps_touch (s : Sys) (ds : list Dep) :
  steps s (Touch <$> ds) = foldl touch s ds.
Proof.
  revert s. induction ds as [|d ds IH]; intros s; [done|].
  simpl. rewrite write_dep_run. apply IH.
Qed.



(** ** Retagging *)

(** C7 (amended): a value-replacing change to [tags] or [startag] runs
    [_rebuild_tags] on the current items and nothing else: the only member
    that can differ afterwards is [tagged]; [_items] is the same and no
    call reaches a collaborator, so the template is not invoked and no item
    is destroyed or inserted. The change returns exactly when the arity
    check passes, and [tagged] is then the map unpacked from the current
    [_items]: a fixed tag that is not repeated later nor equal to the
    non-empty star tag is bound to the item at its index, the non-empty
    star tag to the tuple of the remaining items, and no other name is
    bound. Otherwise the change raises one of the two arity errors and
    leaves the whole state, [tagged] included, as it was. *)
Theorem update_tags_only_rebuilds (c : Change) (s : Sys) :
  change_type c = "update" →
  let r := _update_tags c s in
  let k := length (tags s.1) in
  let n := length (_items s.1) in
  r = _rebuild_tags s
  ∧ (∃ d, final r = (set_tagged d s.1, s.2))
  ∧ _items (final r).1 = _items s.1
  ∧ trace (final r).2 = trace s.2
  ∧ dead (final r).2 = dead s.2
  ∧ (outcome r = Ok tt
     ↔ ¬ (k > 0 ∧ k > n) ∧ ¬ (k > 0 ∧ startag s.1 = "" ∧ n > k))
  ∧ (outcome r = Ok tt →
     tagged (final r).1 = fill_tags (tags s.1) (startag s.1) (_items s.1)
     ∧ (∀ i name, tags s.1 !! i = Some name →
          name ∉ drop (S i) (tags s.1) →
          startag s.1 = "" ∨ name ≠ startag s.1 →
          ∃ item, _items s.1 !! i = Some item
                  ∧ tagged (final r).1 !! name = Some (One item))
     ∧ (startag s.1 ≠ "" →
        tagged (final r).1 !! startag s.1
        = Some (Star (drop k (_items s.1))))
     ∧ (∀ name, name ∉ tags s.1 →
          startag s.1 = "" ∨ name ≠ startag s.1 →
          tagged (final r).1 !! name = None))
  ∧ (∀ e, outcome r = Raise e →
     final r = s
     ∧ (e = ValueError (need_more n) ∨ e = ValueError too_many))
  ∧ (∀ p, ∃ d, final (write_pres p s) = (set_tagged d (store_pres p s.1), s.2)).
Proof.
  intros Hc. cbv zeta. rewrite update_tags_run.
  apply String.eqb_eq in Hc. rewrite Hc.
  destruct (rebuild_tags_final s) as [d Hd].
  split_and!; try done; try (by rewrite Hd).
  - by exists d.
  - destruct s as [n w]. rewrite rebuild_tags_run. simpl fst.
    rewrite <- (unpack_error_none (tags n) (startag n) (_items n)).
    destruct (unpack_error _ _ _); unfold outcome; simpl; split; congruence.
  - destruct s as [n w]. rewrite rebuild_tags_run. simpl fst.
    destruct (unpack_error _ _ _) eqn:Herr; [done|]. intros _.
    unfold final. simpl. split_and!.
    + done.
    + intros i name Ht Hlast Hstar.
      apply unpack_error_none in Herr as [Hfew _].
      destruct (_items n !! i) as [item|] eqn:Hi.
      * exists item. split; [done|].
        apply (fill_tags_fixed _ _ _ i); try done.
        destruct Hstar as [->|?]; [by left | by right].
      * apply lookup_ge_None in Hi. apply lookup_lt_Some in Ht. lia.
    + apply fill_tags_star.
    + intros name Hnot Hstar. apply fill_tags_other; [done|].
      destruct Hstar as [->|?]; [by left | by right].
  - intros e. destruct s as [n w]. rewrite rebuild_tags_run. simpl fst.
    unfold unpack_error.
    destruct (tuple_true (tags n) && (length (_items n) <? length (tags n))%nat).
    { unfold outcome, final. simpl. intros [= <-]. split; [done | by left]. }
    destruct (tuple_true (tags n) && negb (str_true (startag n))
              && (length (tags n) <? length (_items n))%nat).
    { unfold outcome, final. simpl. intros [= <-]. split; [done | by right]. }
    done.
  - intros p. rewrite write_pres_run.
    apply (rebuild_tags_final (store_pres p s.1, s.2)).
Qed.

Lemma update_tags_only_rebuilds_witness :
  change_type (update_change "tags") = "update"
  ∧ outcome (_update_tags (update_change "tags") (overflow_node, blank_world))
    = Ok tt
  ∧ tagged (final (_update_tags (update_change "tags")
                     (overflow_node, blank_world))).1 !! "rest"
    = Some (Star [11; 12]).
Proof.
  split; [reflexivity|].
  destruct (update_tags_only_rebuilds (update_change "tags")
              (overflow_node, blank_world) eq_refl)
    as (_ & _ & _ & _ & _ & Hiff & Hok & _).
  assert (outcome (_update_tags (update_change "tags")
                     (overflow_node, blank_world)) = Ok tt) as Hout.
  { apply Hiff. simpl.
    split; [intros [_ ?]; lia | intros (_ & ? & _); discriminate]. }
  split; [exact Hout|].
  destruct (Hok Hout) as (_ & _ & Hstar & _).
  apply Hstar. discriminate.
Defined.

(** ** Destruction *)

Lemma destroy_run (s : Sys) :
  destroy s =
    (Ok tt,
     (set_items [] (set_update_task None (set_tagged ∅ (set_data ∅
        (set_is_destroyed true s.1)))),
      match _update_task s.1 with
      | Some t =>
          log (EvUnschedule t)
            (set_queue (filter (λ u, u ≠ t) (queue s.2))
               (log EvSuperDestroy s.2))
      | None => log EvSuperDestroy s.2
      end)).
Proof.
  destruct s as [n w]. unfold destroy, super_destroy, del_data, del_tagged,
    del_update_task, del_items, unschedule.
  unfold bind at 1. unfold bind at 1. unfold update at 1. simpl fst. simpl snd.
  unfold effect at 1. simpl fst. simpl snd.
  unfold bind at 1. unfold bind at 1. unfold update at 1. simpl fst. simpl snd.
  rewrite schedule_refresh_run. simpl fst. simpl snd.
  unfold_py. destruct n as [b a tg st da td [t|] it pa de]; reflexivity.
Qed.



(** * Further properties *)

(** ** The tag map as a whole *)

Lemma fold_tags_dom (l : list (string * ItemId)) (d : gmap string TagValue) :
  dom (foldl (λ d p, <[p.1 := One p.2]> d) d l) = dom d ∪ list_to_set l.*1.
Proof.
  revert d. induction l as [|p l IH]; intros d; simpl.
  - set_solver.
  - rewrite IH, dom_insert_L. set_solver.
Qed.

Lemma fill_tags_dom tgs star items :
  length tgs ≤ length items →
  dom (fill_tags tgs star items)
  = list_to_set tgs ∪ (if str_true star then {[ star ]} else ∅).
Proof.
  intros Hlen. unfold fill_tags.
  assert (dom (if tuple_true tgs
               then foldl (λ d p, <[p.1 := One p.2]> d)
                      (∅ : gmap string TagValue) (zip tgs items)
               else ∅) = list_to_set tgs) as Hfixed.
  { destruct tgs as [|t tgs]; [simpl; apply dom_empty_L|].
    cbn [tuple_true]. rewrite fold_tags_dom, fst_zip by done.
    rewrite dom_empty_L. set_solver. }
  destruct (str_true star).
  - rewrite dom_insert_L, Hfixed. set_solver.
  - rewrite Hfixed. set_solver.
Qed.

Lemma unpack_ok_length tgs star items :
  unpack_error tgs star items = None → length tgs ≤ length items.
Proof.
  intros Hok. apply unpack_error_none in Hok as [Hfew _].
  destruct tgs; simpl in *; lia.
Qed.

(** X3: after a successful rebuild the keys of [tagged] are exactly the
    fixed tags, plus the star tag when it is non-empty. *)
Theorem rebuild_tags_keys (s : Sys) :
  outcome (_rebuild_tags s) = Ok tt →
  dom (tagged (final (_rebuild_tags s)).1)
  = list_to_set (tags s.1)
    ∪ (if str_true (startag s.1) then {[ startag s.1 ]} else ∅).
Proof.
  destruct s as [n w]. rewrite rebuild_tags_run.
  destruct (unpack_error _ _ _) eqn:Herr; [done|]. intros _. simpl.
  apply fill_tags_dom. by apply unpack_ok_length in Herr.
Qed.

Lemma omap_take {A B} (f : A → option B) (l : list A) (k : list B) :
  length l ≤ length k →
  (∀ i x, l !! i = Some x → f x = k !! i) →
  omap f l = take (length l) k.
Proof.
  revert k. induction l as [|x l IH]; intros k Hlen Hf; [done|].
  destruct k as [|y k]; simpl in Hlen; [lia|].
  simpl. rewrite (Hf 0 x eq_refl). simpl. f_equal.
  apply IH; [lia|]. intros i z Hz. apply (Hf (S i) z Hz).
Qed.

Lemma NoDup_lookup_last (l : list string) i name :
  NoDup l → l !! i = Some name → name ∉ drop (S i) l.
Proof.
  intros Hnd Hi. rewrite <- (take_drop_middle l i name Hi) in Hnd.
  apply NoDup_app in Hnd as (_ & _ & Hnd).
  by apply NoDup_cons in Hnd as [? _].
Qed.

Lemma fill_tags_repack tgs star items :
  unpack_error tgs star items = None →
  NoDup tgs → star ∉ tgs → tgs ≠ [] ∨ star ≠ "" →
  omap (fixed_of (fill_tags tgs star items)) tgs
  ++ star_of (fill_tags tgs star items) star = items.
Proof.
  intros Hok Hnd Hstar Hsome.
  pose proof (unpack_ok_length _ _ _ Hok) as Hlen.
  assert (omap (fixed_of (fill_tags tgs star items)) tgs
          = take (length tgs) items) as ->.
  { apply omap_take; [done|]. intros i name Hi.
    destruct (items !! i) as [item|] eqn:Hitem.
    - unfold fixed_of. rewrite (fill_tags_fixed tgs star items i name item);
        try done.
      + by apply NoDup_lookup_last.
      + right. intros ->. apply Hstar. by eapply list_elem_of_lookup_2.
    - apply lookup_ge_None in Hitem. apply lookup_lt_Some in Hi. lia. }
  destruct (decide (star = "")) as [->|Hne].
  - unfold star_of. rewrite fill_tags_other by (done || by left).
    destruct Hsome as [Hsome|?]; [|done].
    apply unpack_error_none in Hok as [Hfew Hmany].
    assert (length tgs > 0) by (destruct tgs; simpl; [done|lia]).
    assert (¬ length items > length tgs) by (intros ?; by apply Hmany).
    rewrite app_nil_r. apply take_ge. lia.
  - unfold star_of. rewrite fill_tags_star by done. apply take_drop.
Qed.

(** X4: unpacking loses nothing. When the rebuild succeeds on distinct tags,
    a star tag that is not one of them, and at least one tag of either
    kind, the items read back from [tagged] under the fixed tags, in order,
    followed by the tuple under the star tag, are the item list. *)
Theorem rebuild_tags_repack (s : Sys) :
  outcome (_rebuild_tags s) = Ok tt →
  NoDup (tags s.1) → startag s.1 ∉ tags s.1 →
  tags s.1 ≠ [] ∨ startag s.1 ≠ "" →
  let d := tagged (final (_rebuild_tags s)).1 in
  omap (fixed_of d) (tags s.1) ++ star_of d (startag s.1) = _items s.1.
Proof.
  destruct s as [n w]. rewrite rebuild_tags_run.
  destruct (unpack_error _ _ _) eqn:Herr; [done|]. intros _ Hnd Hstar Hsome.
  cbv zeta. simpl. by apply fill_tags_repack.
Qed.

(** X5: rebuilding twice is rebuilding once: the second run returns or
    raises as the first did and leaves the same state. *)
Theorem rebuild_tags_idempotent (s : Sys) :
  _rebuild_tags (final (_rebuild_tags s)) = _rebuild_tags s.
Proof.
  destruct s as [n w]. rewrite (rebuild_tags_run n w).
  destruct (unpack_error _ _ _) eqn:Herr; simpl.
  - by rewrite rebuild_tags_run, Herr.
  - rewrite rebuild_tags_run. simpl. by rewrite Herr.
Qed.

(** ** Destruction, again *)

(** X10: destroying a node twice never raises: the second [destroy] calls
    the base class again and nothing else; it does not reach the scheduler
    and leaves every member as the first call left it. *)
Theorem destroy_twice (s : Sys) :
  let s1 := final (destroy s) in
  destroy s1 = (Ok tt, (s1.1, log EvSuperDestroy s1.2)).
Proof.
  cbv zeta. rewrite (destroy_run s). unfold final. simpl snd.
  rewrite destroy_run. simpl. done.
Qed.

(** X12: [_schedule_refresh] does not look at the destruction flag: called
    with a change of type ['update'] on a node that [destroy] has released,
    it schedules a refresh task for the destroyed node and keeps its
    handle. *)
Theorem schedule_after_destroy (s : Sys) (c : Change) :
  change_type c = "update" →
  let s1 := final (destroy s) in
  let r := _schedule_refresh c s1 in
  outcome r = Ok tt
  ∧ is_destroyed (final r).1 = true
  ∧ _update_task (final r).1 = Some (next_task s.2)
  ∧ queue (final r).2 = queue s1.2 ++ [next_task s.2].
Proof.
  intros Hc. cbv zeta. rewrite schedule_refresh_run.
  apply String.eqb_eq in Hc. rewrite Hc.
  rewrite destroy_run. unfold final, outcome, request. simpl.
  by destruct (_update_task s.1).
Qed.

(** ** The refresh as a whole *)

Lemma refresh_cases (s : Sys) (new : list ItemId) :
  instantiate s.1 = inr new →
  (new ≠ [] ∧ parent s.1 = None
   ∧ _refresh s = (Raise no_parent, sweep (entered s) (_items s.1)))
  ∨ ((new = [] ∨ parent s.1 ≠ None)
     ∧ _refresh s = _rebuild_tags (installed s new)).
Proof.
  intros Hnew.
  destruct (decide (new = [] ∨ parent s.1 ≠ None)) as [Hpar|Hpar].
  - right. split; [done|]. by apply refresh_installed.
  - left. rewrite refresh_run, Hnew. cbv zeta.
    destruct (sweep_face (entered s) (_items s.1)) as (_ & _ & _ & _ & -> & _).
    change (parent (entered s).1) with (parent s.1).
    destruct new as [|x new]; [by destruct Hpar; left|].
    destruct (parent s.1) as [p|]; [by destruct Hpar; right|].
    split_and!; done.
Qed.

Lemma installed_frame (s : Sys) (new : list ItemId) :
  parent (installed s new).1 = parent s.1
  ∧ is_destroyed (installed s new).1 = is_destroyed s.1
  ∧ _update_task (installed s new).1
    = _update_task (sweep (entered s) (_items s.1)).1
  ∧ queue (installed s new).2 = queue (sweep (entered s) (_items s.1)).2
  ∧ next_task (installed s new).2
    = next_task (sweep (entered s) (_items s.1)).2.
Proof.
  unfold installed. simpl.
  destruct (sweep_face (entered s) (_items s.1)) as (_ & _ & _ & _ & -> & ->).
  split_and!; try done; destruct new; try done; by destruct (parent s.1).
Qed.

(** X6: when the template call yields [new], the refresh returns exactly
    when the insertion can go through (no new items, or a parent) and the
    tag rebuild on [new] succeeds; it then leaves [_items] equal to [new],
    [tagged] equal to the map unpacked from [new], which is the map derived
    from the members as they now are, and has made the single insertion
    call for [new] when [new] is non-empty and none otherwise. *)
Theorem refresh_succeeds (s : Sys) (new : list ItemId) :
  instantiate s.1 = inr new →
  let r := _refresh s in
  (outcome r = Ok tt
   ↔ (new = [] ∨ parent s.1 ≠ None)
     ∧ outcome (_rebuild_tags (set_items new s.1, s.2)) = Ok tt)
  ∧ (outcome r = Ok tt →
     _items (final r).1 = new
     ∧ tagged (final r).1 = fill_tags (tags s.1) (startag s.1) new
     ∧ tagged (final r).1
       = fill_tags (tags (final r).1) (startag (final r).1)
           (_items (final r).1)
     ∧ inserted_in (trace (final r).2)
       = inserted_in (trace s.2) ++ insertion s.1 new).
Proof.
  intros Hnew. cbv zeta.
  destruct (installed_face s new) as (Htags & Hstar & _ & Hitems).
  destruct (rebuild_tags_same_inputs (installed s new) (set_items new s.1, s.2))
    as [Hsame _]; try done.
  split.
  - destruct (refresh_cases s new Hnew) as [(Hn & Hp & ->)|(Hpar & ->)].
    + split; [done|]. intros [[?|?] _]; done.
    + rewrite Hsame. split; [by intros ? | by intros [_ ?]].
  - intros Hok.
    destruct (refresh_phases s new Hnew)
      as (T1 & T2 & HT & _ & HI1 & _ & _ & HI2 & _).
    assert (inserted_in (trace (final (_refresh s)).2)
            = inserted_in (trace s.2) ++ insertion s.1 new) as Hins.
    { rewrite HT, !inserted_in_app, HI1, HI2. done. }
    destruct (refresh_cases s new Hnew) as [(_ & _ & Hr)|(_ & Hr)];
      rewrite Hr in Hok, Hins |- *; [done|].
    destruct (installed s new) as [n1 w1]. simpl in *.
    rewrite rebuild_tags_run in Hok, Hins |- *.
    destruct (unpack_error (tags n1) (startag n1) (_items n1)); [done|].
    simpl in *. rewrite Htags, Hstar, Hitems. done.
Qed.

(** X7: whether it returns or raises, a refresh never changes [tags],
    [startag], the parent or the node's own destruction flag. *)
Theorem refresh_keeps_inputs (s : Sys) :
  let s' := final (_refresh s) in
  tags s'.1 = tags s.1 ∧ startag s'.1 = startag s.1
  ∧ parent s'.1 = parent s.1 ∧ is_destroyed s'.1 = is_destroyed s.1.
Proof.
  cbv zeta. destruct (instantiate s.1) as [e|new] eqn:Hnew.
  - by rewrite refresh_run, Hnew.
  - destruct (refresh_cases s new Hnew) as [(_ & _ & ->)|(_ & ->)].
    + destruct (sweep_face (entered s) (_items s.1))
        as (? & ? & _ & _ & ? & ?). done.
    + destruct (rebuild_tags_final (installed s new)) as [d ->].
      destruct (installed_face s new) as (? & ? & _).
      destruct (installed_frame s new) as (? & ? & _). done.
Qed.

(** ** Initialisation *)

Lemma initialize_loop_run (items : list ItemId) (s : Sys) :
  for_each items item_initialize s
  = (Ok tt, (s.1, logs (EvInitItem <$> items) s.2)).
Proof.
  revert s. induction items as [|i items IH]; intros [n w]; simpl.
  - unfold ret, logs. simpl. rewrite app_nil_r. by destruct w.
  - unfold bind, item_initialize, effect. simpl. rewrite IH.
    unfold logs, log. simpl. by rewrite <- app_assoc.
Qed.

Lemma initialize_run (s : Sys) :
  initialize s =
    match _refresh s with
    | (Ok _, s1) =>
        (Ok tt,
         (s1.1, logs ((EvInitItem <$> _items s1.1) ++ [EvSuperInit]) s1.2))
    | (Raise e, s1) => (Raise e, s1)
    end.
Proof.
  unfold initialize. unfold bind at 1.
  destruct (_refresh s) as [[[]|e] [n1 w1]]; [|done].
  unfold bind at 1. unfold read at 1. simpl fst.
  unfold bind at 1. rewrite initialize_loop_run.
  unfold super_initialize, effect, logs, log. simpl.
  by rewrite <- app_assoc.
Qed.

(** X1: when the refresh of [initialize] returns, [initialize] returns too;
    it has then called [initialize] on each item the refresh produced, once
    and in order, after every call of the refresh, and the base class
    last. Nothing else changes: the node is the one the refresh left. *)
Theorem initialize_after_refresh (s : Sys) (new : list ItemId) :
  instantiate s.1 = inr new →
  outcome (_refresh s) = Ok tt →
  let s1 := final (_refresh s) in
  let r := initialize s in
  outcome r = Ok tt
  ∧ (final r).1 = s1.1
  ∧ _items (final r).1 = new
  ∧ trace (final r).2 = trace s1.2 ++ (EvInitItem <$> new) ++ [EvSuperInit]
  ∧ dead (final r).2 = dead s1.2
  ∧ queue (final r).2 = queue s1.2.
Proof.
  intros Hnew Hok. cbv zeta.
  assert (_items (final (_refresh s)).1 = new) as Hitems.
  { destruct (refresh_cases s new Hnew) as [(_ & _ & Hr)|(_ & Hr)];
      rewrite Hr in Hok |- *; [done|].
    destruct (rebuild_tags_final (installed s new)) as [d ->].
    by destruct (installed_face s new) as (_ & _ & _ & ?). }
  rewrite initialize_run. unfold outcome, final in *.
  destruct (_refresh s) as [[[]|e] [n1 w1]]; [|done].
  simpl in *. by rewrite Hitems.
Qed.

(** X2: when the refresh of [initialize] raises, [initialize] raises the
    same exception and stops there: the state is the one the refresh left,
    so no item is initialised and the base class is not called, even
    though the new items may already be inserted in the parent. *)
Theorem initialize_propagates (s : Sys) (e : Exn) :
  outcome (_refresh s) = Raise e →
  initialize s = (Raise e, final (_refresh s)).
Proof.
  intros Hraise. rewrite initialize_run. unfold outcome, final in *.
  destruct (_refresh s) as [[[]|e'] s1]; simpl in *; congruence.
Qed.

(** ** Dependency writes *)

(** X8: a run of value-replacing changes to [base], [args] and [data] never
    instantiates: [_items], [tagged] and every destruction flag stay as
    they are, the template, the items and the parent are not called, and
    at most one call reaches the scheduler. *)
Theorem writes_never_instantiate (s : Sys) (ds : list Dep) :
  let s' := steps s (Touch <$> ds) in
  _items s'.1 = _items s.1 ∧ tagged s'.1 = tagged s.1
  ∧ tags s'.1 = tags s.1 ∧ startag s'.1 = startag s.1
  ∧ dead s'.2 = dead s.2
  ∧ invoked_in (trace s'.2) = invoked_in (trace s.2)
  ∧ destroyed_in (trace s'.2) = destroyed_in (trace s.2)
  ∧ inserted_in (trace s'.2) = inserted_in (trace s.2)
  ∧ (trace s'.2 = trace s.2
     ∨ trace s'.2 = trace s.2 ++ [EvSchedule (next_task s.2)]).
Proof.
  cbv zeta. rewrite steps_touch.
  destruct (touches_face s ds) as (Htags & Hstar & Htagged & Hitems & _).
  assert (trace (foldl touch s ds).2 = trace s.2
          ∨ trace (foldl touch s ds).2
            = trace s.2 ++ [EvSchedule (next_task s.2)]) as Htrace.
  { destruct (_update_task s.1) as [t|] eqn:Ht.
    - destruct (touches_held s ds t Ht) as [-> _]. by left.
    - destruct ds as [|d ds]; [by left|].
      destruct (touches_free s (d :: ds) Ht) as [_ ->]; [done|]. by right. }
  destruct (touches_world s ds) as (Hdead & _).
  split_and!; try done.
  - destruct Htrace as [->| ->]; [done|].
    rewrite invoked_in_app. simpl. by rewrite app_nil_r.
  - destruct Htrace as [->| ->]; [done|].
    rewrite destroyed_in_app. simpl. by rewrite app_nil_r.
  - destruct Htrace as [->| ->]; [done|].
    rewrite inserted_in_app. simpl. by rewrite app_nil_r.
Qed.

Lemma instantiate_same_deps (n n' : Node) :
  same_deps n n' → instantiate n = instantiate n'.
Proof. unfold instantiate. by intros (-> & -> & ->). Qed.

Lemma touch_same_deps (s : Sys) (n : Node) (d : Dep) :
  same_deps s.1 n → same_deps (touch s d).1 (store d n).
Proof.
  destruct s as [m w]. unfold same_deps, touch, request. simpl.
  intros (Hb & Ha & Hd).
  destruct d; simpl; destruct (_update_task m); simpl; done.
Qed.

Lemma touches_same_deps (s : Sys) (n : Node) (ds : list Dep) :
  same_deps s.1 n → same_deps (foldl touch s ds).1 (stored n ds).
Proof.
  revert s n. induction ds as [|d ds IH]; intros s n Hsame; [done|].
  simpl. by apply IH, touch_same_deps.
Qed.

Lemma refresh_invokes (s : Sys) :
  invoked_in (trace (final (_refresh s)).2)
  = invoked_in (trace s.2)
    ++ match base s.1 with Some _ => [()] | None => [] end.
Proof.
  destruct (instantiate s.1) as [e|new] eqn:Hnew.
  - rewrite refresh_run, Hnew. simpl. rewrite invoked_in_app.
    unfold instantiate in Hnew. by destruct (base s.1).
  - destruct (refresh_phases s new Hnew)
      as (T1 & T2 & -> & _ & _ & HV1 & _ & _ & HV2 & _).
    rewrite !invoked_in_app, HV1, HV2. by rewrite app_nil_r.
Qed.

(** X9: a burst of value-replacing changes on an idle node followed by one
    scheduler turn makes one refresh, on the last values written: the
    template is called once if the final [base] is set and not at all
    otherwise, and [_items] ends as the list that call yields (it is kept
    as it was when the call raises). *)
Theorem coalesced_refresh_last_values (s : Sys) (ds : list Dep) :
  pending_ok s → _update_task s.1 = None → ds ≠ [] →
  let n' := stored s.1 ds in
  let s2 := step (steps s (Touch <$> ds)) Tick in
  invoked_in (trace s2.2)
  = invoked_in (trace s.2)
    ++ match base n' with Some _ => [()] | None => [] end
  ∧ (∀ e, instantiate n' = inl e → _items s2.1 = _items s.1)
  ∧ (∀ new, instantiate n' = inr new →
            new = [] ∨ parent s.1 ≠ None → _items s2.1 = new).
Proof.
  intros Hok Hnone Hne. cbv zeta. rewrite steps_touch. simpl. unfold run_next.
  destruct (touches_free s ds Hnone Hne) as [Hh Hw].
  destruct (touches_face s ds) as (_ & _ & _ & Hitems & Hpar & _).
  pose proof (touches_same_deps s s.1 ds) as Hdeps.
  destruct Hdeps as (Hb & Ha & Hd); [done|].
  unfold pending_ok in Hok. rewrite Hnone in Hok.
  rewrite Hw. simpl. rewrite Hok. simpl.
  set (s1 := ((foldl touch s ds).1,
              set_queue []
                (log (EvSchedule (next_task s.2))
                   (set_next_task (S (next_task s.2))
                      (set_queue [next_task s.2] s.2))))).
  assert (instantiate s1.1 = instantiate (stored s.1 ds)) as Hinst.
  { apply instantiate_same_deps. done. }
  change (_refresh s1).2 with (final (_refresh s1)).
  split_and!.
  - rewrite refresh_invokes. simpl. rewrite invoked_in_app. simpl.
    by rewrite app_nil_r, Hb.
  - intros e He. rewrite <- Hinst in He.
    rewrite refresh_run, He. simpl. done.
  - intros new Hnew Hp. rewrite <- Hinst in Hnew.
    rewrite (refresh_installed s1 new Hnew) by (simpl; by rewrite Hpar).
    destruct (rebuild_tags_final (installed s1 new)) as [d ->].
    by destruct (installed_face s1 new) as (_ & _ & _ & ?).
Qed.

(** ** A refresh that bypasses the scheduler *)

Lemma sweep_sched_cases (s : Sys) (olds : list ItemId) :
  _update_task s.1 = None →
  let s' := sweep s olds in
  (_update_task s'.1 = None ∧ queue s'.2 = queue s.2
   ∧ next_task s'.2 = next_task s.2)
  ∨ (_update_task s'.1 = Some (next_task s.2)
     ∧ queue s'.2 = queue s.2 ++ [next_task s.2]
     ∧ next_task s'.2 = S (next_task s.2)).
Proof.
  revert s. induction olds as [|x olds IH]; intros s Hnone; [by left|].
  cbv zeta. rewrite sweep_cons. case_bool_decide; [by apply IH|].
  destruct (decide (teardown x = [])) as [Hq|Hfire].
  - destruct (torn_quiet s x Hq) as (Hh & Hq' & Hn).
    rewrite <- Hq', <- Hn. apply IH. congruence.
  - destruct (torn_free s x Hnone Hfire) as (Hh & Hq' & Hn).
    destruct (sweep_held _ olds _ Hh) as (? & ? & ?).
    right. split_and!; congruence.
Qed.

Lemma refresh_sched_cases (s : Sys) :
  let s' := final (_refresh s) in
  (_update_task s'.1 = None ∧ queue s'.2 = queue s.2
   ∧ next_task s'.2 = next_task s.2)
  ∨ (_update_task s'.1 = Some (next_task s.2)
     ∧ queue s'.2 = queue s.2 ++ [next_task s.2]
     ∧ next_task s'.2 = S (next_task s.2)).
Proof.
  cbv zeta. destruct (instantiate s.1) as [e|new] eqn:Hnew.
  - rewrite refresh_run, Hnew. by left.
  - assert (queue (entered s).2 = queue s.2
            ∧ next_task (entered s).2 = next_task s.2) as [Hq Hn].
    { unfold entered. simpl. by destruct (base s.1). }
    pose proof (sweep_sched_cases (entered s) (_items s.1) eq_refl) as Hcases.
    cbv zeta in Hcases. rewrite Hq, Hn in Hcases.
    destruct (refresh_cases s new Hnew) as [(_ & _ & ->)|(_ & ->)]; [done|].
    destruct (rebuild_tags_final (installed s new)) as [d ->].
    destruct (installed_frame s new) as (_ & _ & Hh' & Hq' & Hn').
    rewrite <- Hh', <- Hq', <- Hn' in Hcases. exact Hcases.
Qed.

Lemma initialize_sched (s : Sys) :
  _update_task (final (initialize s)).1 = _update_task (final (_refresh s)).1
  ∧ queue (final (initialize s)).2 = queue (final (_refresh s)).2
  ∧ next_task (final (initialize s)).2 = next_task (final (_refresh s)).2.
Proof.
  rewrite initialize_run. unfold final.
  by destruct (_refresh s) as [[[]|e] s1].
Qed.

(** X11: [initialize] refreshes without going through the scheduler. A
    task held at that moment is forgotten but not unscheduled: it stays in
    the scheduler's queue, and the next value-replacing change to a
    dependency leaves a second task queued behind it. *)
Theorem initialize_leaves_stale_task (s : Sys) (t : TaskId) (d : Dep) :
  _update_task s.1 = Some t → queue s.2 = [t] →
  let s1 := final (initialize s) in
  let s2 := final (write_dep d s1) in
  t ∈ queue s1.2
  ∧ queue s2.2 = [t; next_task s.2]
  ∧ _update_task s2.1 = Some (next_task s.2).
Proof.
  intros Hheld Hq. cbv zeta.
  destruct (initialize_sched s) as (Hh1 & Hq1 & Hn1).
  set (s1 := final (initialize s)) in *.
  rewrite write_dep_run.
  change (final (Ok tt, touch s1 d)) with (touch s1 d).
  destruct (refresh_sched_cases s) as [(Hh & Hq' & Hn)|(Hh & Hq' & Hn)];
    rewrite Hh in Hh1; rewrite Hq', Hq in Hq1; rewrite Hn in Hn1.
  - destruct (touch_free s1 d Hh1) as [-> ->].
    rewrite Hq1, Hn1. simpl. split_and!; try done. by left.
  - destruct (touch_held s1 d _ Hh1) as [-> ->].
    rewrite Hq1. simpl. split_and!; try done. by left.
Qed.

End DynamicTemplate.

(** ** Closed instances *)

(** C10 as stated fails: with [base] equal to [None] the new item list is
    empty, yet on a node that declares a tag the refresh does not complete:
    the tag rebuild raises. *)
Lemma refresh_empty_may_raise :
  instantiate tagged_orphan.1 = inr []
  ∧ parent tagged_orphan.1 = None
  ∧ outcome (_refresh quiet tagged_orphan)
    = Raise (ValueError "need more than 0 values to unpack")
  ∧ outcome (_refresh quiet tagged_orphan) ≠ Ok tt.
Proof. split_and!; done. Qed.

Lemma refresh_template_error_witness :
  instantiate failing_node = inl (TemplateError "boom")
  ∧ outcome (_refresh quiet (failing_node, worn_world))
    = Raise (TemplateError "boom")
  ∧ _items (final (_refresh quiet (failing_node, worn_world))).1 = [1; 2].
Proof.
  split; [reflexivity|].
  destruct (refresh_template_error quiet (failing_node, worn_world)
              (TemplateError "boom") eq_refl) as (H1 & H2 & _).
  split; [exact H1 | exact H2].
Defined.

Lemma refresh_destroys_old_witness :
  instantiate grown_node = inr [5; 6]
  ∧ ∀ o, o ∈ [1; 2; 1] →
         o ∈ dead (final (_refresh noisy (grown_node, worn_world))).2.
Proof.
  split; [reflexivity|].
  destruct (refresh_destroys_old noisy (grown_node, worn_world) [5; 6] eq_refl)
    as (T1 & T2 & _ & _ & _ & _ & _ & _ & Hdead).
  exact Hdead.
Defined.

Lemma refresh_no_base_witness :
  base starred_node = None
  ∧ _items (final (_refresh quiet (starred_node, blank_world))).1 = [].
Proof.
  split; [reflexivity|].
  destruct (refresh_no_base quiet (starred_node, blank_world) eq_refl)
    as (H1 & _).
  exact H1.
Defined.

Lemma refresh_unpack_error_witness :
  instantiate short_node = inr [5]
  ∧ parent short_node ≠ None
  ∧ outcome (_rebuild_tags (set_items [5] short_node, blank_world))
    = Raise (ValueError "need more than 1 values to unpack")
  ∧ outcome (_refresh quiet (short_node, blank_world))
    = Raise (ValueError "need more than 1 values to unpack")
  ∧ _items (final (_refresh quiet (short_node, blank_world))).1 = [5]
  ∧ tagged (final (_refresh quiet (short_node, blank_world))).1
    = {[ "a" := One 1 ]}.
Proof.
  assert (parent short_node ≠ None) as Hpar by discriminate.
  split; [reflexivity|]. split; [exact Hpar|]. split; [reflexivity|].
  destruct (refresh_unpack_error quiet (short_node, blank_world) [5]
              (ValueError "need more than 1 values to unpack")
              eq_refl (or_intror Hpar) eq_refl) as (H1 & H2 & H3 & _).
  split; [exact H1|]. split; [exact H2 | exact H3].
Defined.

Lemma refresh_parent_access_witness :
  instantiate blank_node = inr []
  ∧ outcome (_refresh quiet (blank_node, blank_world)) = Ok tt.
Proof.
  split; [reflexivity|].
  destruct (refresh_parent_access quiet (blank_node, blank_world) [] eq_refl)
    as (Hempty & _).
  destruct (Hempty eq_refl) as (_ & _ & Hok).
  apply Hok. reflexivity.
Defined.

(** A dependency written while item 1 is torn down: the refresh ends with a
    fresh task held and queued. *)
Example refresh_reentrant :
  _update_task (final (_refresh noisy (grown_node, worn_world))).1 = Some 0
  ∧ queue (final (_refresh noisy (grown_node, worn_world))).2 = [0]
  ∧ trace (final (_refresh noisy (grown_node, worn_world))).2
    = [EvInvoke; EvDestroyItem 1; EvSchedule 0; EvInsertChildren 0 [5; 6]].
Proof. split_and!; reflexivity. Qed.

(** Three writes in one tick schedule one task; the tick runs it and a
    later write schedules the next one. *)
Example coalesce_three_writes :
  let s1 := steps quiet (blank_node, blank_world)
              [Touch (NewArgs [PyInt 1]); Touch (NewData ∅);
               Touch (NewArgs [PyInt 2])] in
  let s2 := steps quiet s1 [Tick] in
  let s3 := steps quiet s2 [Touch (NewArgs [])] in
  queue s1.2 = [0] ∧ scheduled_in (trace s1.2) = [0]
  ∧ queue s2.2 = [] ∧ _update_task s2.1 = None
  ∧ queue s3.2 = [1] ∧ _update_task s3.1 = Some 1.
Proof. cbv zeta. split_and!; reflexivity. Qed.

(** The two error messages of the tag rebuild (spec, section 8). *)
Example unpack_insufficient :
  outcome (_rebuild_tags
             (set_items [10] (set_tags ["a"; "b"] blank_node), blank_world))
  = Raise (ValueError "need more than 1 values to unpack").
Proof. reflexivity. Qed.

Example unpack_excess :
  outcome (_rebuild_tags
             (set_items [10; 11] (set_tags ["a"] blank_node), blank_world))
  = Raise (ValueError "too many values to unpack").
Proof. reflexivity. Qed.

Lemma rebuild_tags_keys_witness :
  outcome (_rebuild_tags (overflow_node, blank_world)) = Ok tt
  ∧ dom (tagged (final (_rebuild_tags (overflow_node, blank_world))).1)
    = list_to_set ["a"] ∪ {[ "rest" ]}.
Proof.
  split; [reflexivity|].
  apply (rebuild_tags_keys (overflow_node, blank_world) eq_refl).
Defined.

Lemma rebuild_tags_repack_witness :
  outcome (_rebuild_tags (overflow_node, blank_world)) = Ok tt
  ∧ NoDup ["a"] ∧ "rest" ∉ ["a"]
  ∧ omap (fixed_of
            (tagged (final (_rebuild_tags (overflow_node, blank_world))).1))
         ["a"]
    ++ star_of (tagged (final (_rebuild_tags (overflow_node, blank_world))).1)
         "rest"
    = [10; 11; 12].
Proof.
  assert (NoDup ["a"]) as Hnd by (apply NoDup_singleton).
  assert ("rest" ∉ ["a"]) as Hstar.
  { intros Hin. apply list_elem_of_singleton in Hin. discriminate. }
  split; [reflexivity|]. split; [exact Hnd|]. split; [exact Hstar|].
  apply (rebuild_tags_repack (overflow_node, blank_world) eq_refl Hnd Hstar).
  left. discriminate.
Defined.

Lemma schedule_after_destroy_witness :
  change_type (update_change "base") = "update"
  ∧ queue (final (_schedule_refresh (update_change "base")
                    (final (destroy (blank_node, blank_world))))).2 = [0].
Proof.
  split; [reflexivity|].
  destruct (schedule_after_destroy (blank_node, blank_world)
              (update_change "base") eq_refl) as (_ & _ & _ & Hq).
  exact Hq.
Defined.

Lemma refresh_succeeds_witness :
  instantiate grown_node = inr [5; 6]
  ∧ outcome (_refresh noisy (grown_node, worn_world)) = Ok tt
  ∧ _items (final (_refresh noisy (grown_node, worn_world))).1 = [5; 6].
Proof.
  split; [reflexivity|]. split; [reflexivity|].
  destruct (refresh_succeeds noisy (grown_node, worn_world) [5; 6] eq_refl)
    as (_ & Hpost).
  destruct (Hpost eq_refl) as (Hitems & _). exact Hitems.
Defined.

Lemma initialize_after_refresh_witness :
  instantiate grown_node = inr [5; 6]
  ∧ outcome (_refresh noisy (grown_node, worn_world)) = Ok tt
  ∧ trace (final (initialize noisy (grown_node, worn_world))).2
    = [EvInvoke; EvDestroyItem 1; EvSchedule 0; EvInsertChildren 0 [5; 6];
       EvInitItem 5; EvInitItem 6; EvSuperInit].
Proof.
  split; [reflexivity|]. split; [reflexivity|].
  destruct (initialize_after_refresh noisy (grown_node, worn_world) [5; 6]
              eq_refl eq_refl) as (_ & _ & _ & Htrace & _).
  exact Htrace.
Defined.

Lemma initialize_propagates_witness :
  outcome (_refresh quiet (failing_node, worn_world))
  = Raise (TemplateError "boom")
  ∧ outcome (initialize quiet (failing_node, worn_world))
    = Raise (TemplateError "boom").
Proof.
  split; [reflexivity|].
  rewrite (initialize_propagates quiet (failing_node, worn_world)
             (TemplateError "boom") eq_refl).
  reflexivity.
Defined.

Lemma coalesced_refresh_last_values_witness :
  pending_ok (adopted_node, blank_world)
  ∧ _update_task adopted_node = None
  ∧ _items (step quiet
              (steps quiet (adopted_node, blank_world)
                 (Touch <$> [NewArgs [PyInt 1];
                             NewBase (Some single_template)]))
              Tick).1 = [5].
Proof.
  assert (pending_ok (adopted_node, blank_world)) as Hok by reflexivity.
  assert ([NewArgs [PyInt 1]; NewBase (Some single_template)] ≠ [])
    as Hne by discriminate.
  split; [exact Hok|]. split; [reflexivity|].
  destruct (coalesced_refresh_last_values quiet (adopted_node, blank_world)
              [NewArgs [PyInt 1]; NewBase (Some single_template)]
              Hok eq_refl Hne) as (_ & _ & Hitems).
  apply (Hitems [5] eq_refl). right. discriminate.
Defined.

Lemma initialize_leaves_stale_task_witness :
  _update_task waiting_node = Some 0
  ∧ queue waiting_world = [0]
  ∧ queue (final (write_dep (NewArgs [])
                    (final (initialize quiet (waiting_node, waiting_world))))).2
    = [0; 1].
Proof.
  split; [reflexivity|]. split; [reflexivity|].
  destruct (initialize_leaves_stale_task quiet (waiting_node, waiting_world)
              0 (NewArgs []) eq_refl eq_refl) as (_ & Hq & _).
  exact Hq.
Defined.

(** ** Where the claims as stated fail *)



(** C6 as stated fails: with [base] equal to [None] on a node that declares
    a fixed tag, the refresh empties [_items] and then raises in the tag
    rebuild; [tagged] is not derived from the empty list but still binds the
    old item. *)
Lemma refresh_no_base_keeps_stale_tags :
  let r := _refresh quiet (stale_node, blank_world) in
  base stale_node = None
  ∧ outcome r = Raise (ValueError "need more than 0 values to unpack")
  ∧ _items (final r).1 = []
  ∧ tagged (final r).1 !! "x" = Some (One 1)
  ∧ fill_tags (tags stale_node) (startag stale_node) [] !! "x" = None
  ∧ tagged (final r).1
    ≠ fill_tags (tags (final r).1) (startag (final r).1) (_items (final r).1).
Proof.
  cbv zeta. split_and!; try reflexivity.
  intros Heq. apply (f_equal (λ d, d !! "x")) in Heq. discriminate Heq.
Qed.

(** C7 as stated fails: replacing [tags] by two names while one item is
    current raises, and [tagged] is not rebuilt: it keeps the old binding
    and does not bind the new tag. *)
Lemma retag_wrong_arity_not_rebuilt :
  let r := write_pres (NewTags ["a"; "b"]) (bound_node, blank_world) in
  r = _update_tags (update_change "tags")
        (set_tags ["a"; "b"] bound_node, blank_world)
  ∧ outcome r = Raise (ValueError "need more than 1 values to unpack")
  ∧ tags (final r).1 = ["a"; "b"]
  ∧ _items (final r).1 = [10]
  ∧ tagged (final r).1 !! "a" = Some (One 10)
  ∧ tagged (final r).1 !! "b" = None.
Proof. cbv zeta. split_and!; reflexivity. Qed.
